(** * Mock OpenAI API tool: the manual-mode request coordinator

    A shallow embedding of [mock_openai_tool/backend/main.py] (the
    coordinator, the broadcast hub, the websocket control channel and the
    [/v1/chat/completions] handler) and of
    [PresetQueueManager.check_and_pop] from [queue_manager.py].

    The module-level globals of [main.py] become the fields of one [state]
    record that every handler threads through; a Python exception becomes
    the [Raised] outcome of a small state-and-exception monad.  A handler
    is run as a whole between two waits for outside input
    ([receive_json], [wait_for]); what other coroutines could do at the
    awaits inside a handler ([send_json], the lock of the queue manager)
    is not modelled. *)

From Stdlib Require Import ZArith.
From stdpp Require Import base option list strings pretty gmap fin_maps.

Open Scope string_scope.
Open Scope list_scope.
Set Warnings "-register-all".

(** ** JSON values

    Request bodies, operator messages and responses are arbitrary JSON. *)

Inductive json : Type :=
  | JNull
  | JBool (b : bool)
  | JNum (n : Z)
  | JStr (s : string)
  | JArr (items : list json)
  | JObj (fields : list (string * json)).

(** [d.get(key)] on the fields of a JSON object, whose keys are
    distinct. *)
Fixpoint dict_get (key : string) (fields : list (string * json)) : option json :=
  match fields with
  | [] => None
  | (k, v) :: rest => if decide (k = key) then Some v else dict_get key rest
  end.

(** [v == "text"] for a JSON value [v] and a string literal. *)
Definition json_is_str (v : json) (text : string) : bool :=
  match v with
  | JStr s => bool_decide (s = text)
  | _ => false
  end.

(** ** Exceptions *)

Inductive key : Type :=
  | DictKey (k : string)
  | SetElement (ws : nat).

Inductive exn : Type :=
  | KeyError (k : key)
  | TypeError
  | JSONDecodeError
  | WebSocketDisconnect
  | RuntimeError
  | CancelledError (msg : string)
  | TimeoutError.

(** What [ws.send_json] raises on a dead connection; both are subclasses
    of [Exception]. *)
Inductive send_error : Type :=
  | SendDisconnected
  | SendClosed.

Definition exn_of_send_error (err : send_error) : exn :=
  match err with
  | SendDisconnected => WebSocketDisconnect
  | SendClosed => RuntimeError
  end.

(** ** The data model of [main.py] *)

(** [request_obj], the dict built by [handle_completion]. *)
Record request_obj : Type := RequestObj {
  rq_id : string;
  rq_ip : string;
  rq_port : Z;
  rq_method : string;
  rq_path : string;
  rq_headers : list (string * string);
  rq_body : json;
  rq_timestamp : string;
  rq_status : string;
}.

(** An [asyncio.Future] of [request_futures]. *)
Inductive future : Type :=
  | Pending
  | Result (response_data status_code : json)
  | Failed (e : exn)
  | Cancelled.

(** [future.done()] *)
Definition done (f : future) : bool :=
  match f with
  | Pending => false
  | _ => true
  end.

(** An item of a preset deque of [PresetQueueManager]. *)
Record preset_item : Type := PresetItem {
  pi_id : string;
  pi_response : json;
  pi_status_code : json;
  pi_created_at : Z;
}.

(** The messages sent to the operator consoles, by their ["type"]; the
    float-valued fields (timestamps, elapsed times) are left out. *)
Inductive event : Type :=
  | NewRequest (data : request_obj)
  | CompletedRequest (id : json) (ip : string) (port : Z)
      (body response status_code : json)
  | QueueEvent (event_type : string) (ip : option string)
  | BypassRequest (id client_ip : string) (request_body : json)
      (target_url : string)
  | BypassResponse (id : string) (status_code response_body : json)
      (success : bool) (error : option string).

Definition event_type_of (ev : event) : string :=
  match ev with
  | NewRequest _ => "new_request"
  | CompletedRequest _ _ _ _ _ _ => "completed_request"
  | QueueEvent t _ => t
  | BypassRequest _ _ _ _ => "bypass_request"
  | BypassResponse _ _ _ _ _ => "bypass_response"
  end.

(** The calls to [logger] and [logging], by call site. *)
Inductive log_entry : Type :=
  | LogSendFailed (ws : nat)
  | LogClientDisconnected (req_id : string)
  | LogCleaningUp (req_id : string)
  | LogAutoResponse (client_ip : string) (status_code : json)
  | LogCompletedSendFailed (ws : nat)
  | LogQueued (req_id client_ip : string) (client_port : Z)
  | LogCancelled (req_id : string)
  | LogTimedOut (req_id : string)
  | LogProcessing (req_id : string)
  | LogCompleted (req_id status_code : json).

(** The globals of [main.py], the two fields of the managers that
    [handle_completion] reads, and the two output channels: [wire] is the
    sequence of messages delivered to consoles, oldest first, and [log]
    the sequence of log records.  [websocket_clients] is a Python set: the
    list is the set in its iteration order and holds no duplicates.
    [pending_requests] is the [asyncio.Queue], head first. *)
Record state : Type := State {
  websocket_clients : list nat;
  pending_requests : list request_obj;
  current_request : option request_obj;
  request_futures : gmap string future;
  queues : gmap string (list preset_item);
  bypass_enabled : bool;
  wire : list (nat * event);
  log : list log_entry;
}.

Definition set_websocket_clients (f : list nat → list nat) (s : state) : state :=
  State (f (websocket_clients s)) (pending_requests s) (current_request s)
    (request_futures s) (queues s) (bypass_enabled s) (wire s) (log s).

Definition set_pending_requests (f : list request_obj → list request_obj)
    (s : state) : state :=
  State (websocket_clients s) (f (pending_requests s)) (current_request s)
    (request_futures s) (queues s) (bypass_enabled s) (wire s) (log s).

Definition set_current_request (c : option request_obj) (s : state) : state :=
  State (websocket_clients s) (pending_requests s) c
    (request_futures s) (queues s) (bypass_enabled s) (wire s) (log s).

Definition set_request_futures
    (f : gmap string future → gmap string future) (s : state) : state :=
  State (websocket_clients s) (pending_requests s) (current_request s)
    (f (request_futures s)) (queues s) (bypass_enabled s) (wire s) (log s).

Definition set_queues
    (f : gmap string (list preset_item) → gmap string (list preset_item))
    (s : state) : state :=
  State (websocket_clients s) (pending_requests s) (current_request s)
    (request_futures s) (f (queues s)) (bypass_enabled s) (wire s) (log s).

Definition emit (ws : nat) (message : event) (s : state) : state :=
  State (websocket_clients s) (pending_requests s) (current_request s)
    (request_futures s) (queues s) (bypass_enabled s)
    (wire s ++ [(ws, message)]) (log s).

Definition add_log (entry : log_entry) (s : state) : state :=
  State (websocket_clients s) (pending_requests s) (current_request s)
    (request_futures s) (queues s) (bypass_enabled s) (wire s)
    (log s ++ [entry]).

(** The state after [initialize_globals], with no preset queue loaded and
    bypass mode off. *)
Definition initial_state : state :=
  State [] [] None ∅ ∅ false [] [].

(** ** A state-and-exception monad for the handlers *)

Inductive outcome (A : Type) : Type :=
  | Returned (a : A)
  | Raised (e : exn).
Arguments Returned {A} a.
Arguments Raised {A} e.

Definition M (A : Type) : Type := state → outcome A * state.

Definition ret {A} (a : A) : M A := λ s, (Returned a, s).

Definition raise {A} (e : exn) : M A := λ s, (Raised e, s).

Definition bind {A B} (m : M A) (k : A → M B) : M B := λ s,
  match m s with
  | (Returned a, s') => k a s'
  | (Raised e, s') => (Raised e, s')
  end.

Definition gets {A} (f : state → A) : M A := λ s, (Returned (f s), s).

Definition modify (f : state → state) : M unit := λ s, (Returned tt, f s).

(** [try: m except ...: ...]: [handler e] is the clause that catches [e],
    [None] when no clause does and [e] propagates. *)
Definition try_except {A} (m : M A) (handler : exn → option (M A)) : M A :=
  λ s,
  match m s with
  | (Returned a, s') => (Returned a, s')
  | (Raised e, s') =>
      match handler e with
      | Some h => h s'
      | None => (Raised e, s')
      end
  end.

(** [except Exception:] catches everything but [CancelledError], which
    derives from [BaseException]. *)
Definition except_Exception {A} (h : M A) (e : exn) : option (M A) :=
  match e with
  | CancelledError _ => None
  | _ => Some h
  end.

(** [try: m finally: cleanup]: an exception of [cleanup] replaces the
    outcome of [m], a return value or an exception alike. *)
Definition try_finally {A} (m : M A) (cleanup : M unit) : M A := λ s,
  match m s with
  | (r, s') =>
      match cleanup s' with
      | (Returned _, s'') => (r, s'')
      | (Raised e, s'') => (Raised e, s'')
      end
  end.

Notation "'let*' x ':=' m 'in' k" := (bind m (λ x, k))
  (at level 10, x name, m at level 100, k at level 200, only parsing).
Notation "m ';;' k" := (bind m (λ _, k))
  (at level 100, k at level 200, right associativity, only parsing).

(** The state a handler leaves behind, and what it returned or raised. *)
Definition exec {A} (m : M A) (s : state) : state := (m s).2.
Definition result {A} (m : M A) (s : state) : outcome A := (m s).1.

(** ** The handlers

    Whether a send to a console succeeds is decided outside the program:
    [send_fault ws] is [None] while the connection of [ws] is good and the
    exception [ws.send_json] raises otherwise. *)

Section Handlers.

Variable send_fault : nat → option send_error.

(** [await ws.send_json(message)] *)
Definition send_json (ws : nat) (message : event) : M unit := λ s,
  match send_fault ws with
  | None => (Returned tt, emit ws message s)
  | Some err => (Raised (exn_of_send_error err), s)
  end.

(** The loop of [broadcast_websocket]: every send in its own [try], the
    clients whose send failed collected in [disconnected_clients]. *)
Fixpoint broadcast_loop (clients : list nat) (message : event)
    (disconnected_clients : list nat) : M (list nat) :=
  match clients with
  | [] => ret disconnected_clients
  | ws :: rest =>
      let* disconnected_clients :=
        try_except
          (send_json ws message;; ret disconnected_clients)
          (except_Exception
             (modify (add_log (LogSendFailed ws));;
              ret (disconnected_clients ++ [ws]))) in
      broadcast_loop rest message disconnected_clients
  end.

(** [broadcast_websocket(message)] *)
Definition broadcast_websocket (message : event) : M unit :=
  let* clients := gets websocket_clients in
  let* disconnected_clients := broadcast_loop clients message [] in
  modify (set_websocket_clients
            (filter (λ ws, ws ∉ disconnected_clients))).

(** [broadcast_queue_update(event_type, ip)]; [if ip:] is false for
    [None] and for the empty string. *)
Definition broadcast_queue_update (event_type : string) (ip : option string)
    : M unit :=
  broadcast_websocket
    (QueueEvent event_type
       (match ip with
        | Some a => if decide (a = "") then None else Some a
        | None => None
        end)).

(** [for ws in websocket_clients: await ws.send_json(message)], the loop
    of [process_next_request] and of [websocket_endpoint]: no [try]
    around the send, so the first failure ends the loop. *)
Fixpoint send_to_each (clients : list nat) (message : event) : M unit :=
  match clients with
  | [] => ret tt
  | ws :: rest => send_json ws message;; send_to_each rest message
  end.

(** [process_next_request()] *)
Definition process_next_request : M unit :=
  let* current := gets current_request in
  let* pending := gets pending_requests in
  match current, pending with
  | None, next :: rest =>
      modify (set_pending_requests (λ _, rest));;
      modify (set_current_request (Some next));;
      modify (add_log (LogProcessing (rq_id next)));;
      let* clients := gets websocket_clients in
      send_to_each clients (NewRequest next)
  | _, _ => ret tt
  end.

(** [_cleanup_current_request(req_id)]; a request dict is never empty, so
    [if current_request] tests for [None]. *)
Definition _cleanup_current_request (req_id : string) : M unit :=
  let* current := gets current_request in
  match current with
  | Some cur =>
      if decide (rq_id cur = req_id) then
        modify (add_log (LogCleaningUp req_id));;
        modify (set_current_request None);;
        process_next_request
      else ret tt
  | None => ret tt
  end.

(** The body of the [if await request.is_disconnected()] branch of
    [_check_client_disconnect], after its log call: the cancellation of
    the request by its disconnect watcher. *)
Definition cancel (req_id : string) : M unit :=
  let* futures := gets request_futures in
  match futures !! req_id with
  | Some f =>
      if done f then ret tt
      else modify (set_request_futures
                     (<[req_id := Failed (CancelledError "Client disconnected")]>))
  | None => ret tt
  end.

(** One round of [_check_client_disconnect] that finds the caller gone. *)
Definition _check_client_disconnect (req_id : string) : M unit :=
  modify (add_log (LogClientDisconnected req_id));;
  cancel req_id.

(** *** The control channel: [websocket_endpoint] *)

(** [msg[key]] on a received JSON value. *)
Definition getitem (msg : json) (key : string) : M json :=
  match msg with
  | JObj fields =>
      match dict_get key fields with
      | Some v => ret v
      | None => raise (KeyError (DictKey key))
      end
  | _ => raise TypeError
  end.

(** [msg.get(key, default)] on a received JSON object. *)
Definition get_default (msg : json) (key : string) (default : json) : json :=
  match msg with
  | JObj fields =>
      match dict_get key fields with
      | Some v => v
      | None => default
      end
  | _ => default
  end.

(** [request_futures.get(req_id)] for a key taken from a message: the
    keys of the table are strings, a list or an object is unhashable.
    A future that is found comes with the key it is stored under. *)
Definition futures_get (req_id : json) : M (option (string * future)) :=
  match req_id with
  | JStr k =>
      let* futures := gets request_futures in
      ret ((λ f, (k, f)) <$> futures !! k)
  | JArr _ | JObj _ => raise TypeError
  | _ => ret None
  end.

(** The body of the [while True] loop of [websocket_endpoint] for one
    received message [msg]. *)
Definition on_message (msg : json) : M unit :=
  let* type := getitem msg "type" in
  if json_is_str type "send_response" then
    let* req_id := getitem msg "id" in
    let status_code := get_default msg "status_code" (JNum 200) in
    let* response_data := getitem msg "response" in
    let* found := futures_get req_id in
    match found with
    | Some (k, f) =>
        if done f then ret tt
        else
          modify (set_request_futures
                    (<[k := Result response_data status_code]>));;
          modify (add_log (LogCompleted req_id status_code));;
          let* current := gets current_request in
          match current with
          | Some cur =>
              let completed_data :=
                CompletedRequest req_id (rq_ip cur) (rq_port cur)
                  (rq_body cur) response_data status_code in
              let* clients := gets websocket_clients in
              send_to_each clients completed_data;;
              modify (set_current_request None);;
              process_next_request
          | None => raise TypeError
          end
    | None => ret tt
    end
  else ret tt.

(** What [ws.receive_json()] finds next on the connection. *)
Inductive frame : Type :=
  | Text (msg : json)
  | Garbled
  | Close.

(** [await ws.receive_json()] *)
Definition receive_json (f : frame) : M json :=
  match f with
  | Text msg => ret msg
  | Garbled => raise JSONDecodeError
  | Close => raise WebSocketDisconnect
  end.

(** The [while True] loop on the frames that arrive; it returns only
    when they are used up, the handler then being suspended in
    [receive_json]. *)
Fixpoint receive_loop (frames : list frame) : M unit :=
  match frames with
  | [] => ret tt
  | f :: rest =>
      let* msg := receive_json f in
      on_message msg;;
      receive_loop rest
  end.

(** [websocket_clients.add(ws)] and [websocket_clients.remove(ws)] *)
Definition clients_add (ws : nat) (clients : list nat) : list nat :=
  if decide (ws ∈ clients) then clients else clients ++ [ws].

Definition clients_remove (ws : nat) : M unit :=
  let* clients := gets websocket_clients in
  if decide (ws ∈ clients) then
    modify (set_websocket_clients (filter (λ w, w ≠ ws)))
  else raise (KeyError (SetElement ws)).

(** Where [websocket_endpoint] stands once the frames are used up. *)
Inductive connection : Type :=
  | Listening
  | Closed.

(** The [try] block of [websocket_endpoint]: the receive loop, and the
    one clause [except WebSocketDisconnect]. *)
Definition serve (ws : nat) (frames : list frame) : M connection :=
  try_except
    (receive_loop frames;; ret Listening)
    (λ e, match e with
          | WebSocketDisconnect => Some (clients_remove ws;; ret Closed)
          | _ => None
          end).

(** [websocket_endpoint(ws)] on the frames that arrive on [ws]. *)
Definition websocket_endpoint (ws : nat) (frames : list frame)
    : M connection :=
  modify (set_websocket_clients (clients_add ws));;
  let* current := gets current_request in
  match current with
  | Some cur => send_json ws (NewRequest cur)
  | None => ret tt
  end;;
  serve ws frames.

(** *** The preset queue: [PresetQueueManager.check_and_pop] *)

(** [check_and_pop(ip)]: [popleft] shortens the deque in place, the key
    stays in [_queues].  The write of the persistence file runs in a task
    of its own and is not modelled. *)
Definition check_and_pop (ip : string) : M (option (json * json)) :=
  let* qs := gets queues in
  match qs !! ip with
  | Some (preset_item :: rest) =>
      modify (set_queues (<[ip := rest]>));;
      ret (Some (pi_response preset_item, pi_status_code preset_item))
  | _ => ret None
  end.

(** *** The HTTP endpoint: [handle_completion] *)

(** What [handle_completion] reads from the [Request]. *)
Record http_request : Type := HttpRequest {
  hr_body : json;
  client_host : string;
  client_port : Z;
  hr_headers : list (string * string);
}.

Record JSONResponse : Type := mkJSONResponse {
  content : json;
  status_code : json;
}.

(** What [bypass_handler.forward_request] does, which is decided
    upstream: it returns a body and a status, or raises [BypassError]. *)
Inductive upstream : Type :=
  | Forwarded (response_body : json) (status : Z)
  | BypassError (message : string).

(** The values a run of the handler draws from outside: the two
    [uuid.uuid4()], the clock, the displayed target URL and the upstream
    service. *)
Record environment : Type := Environment {
  uuid_req : string;
  uuid_bypass : string;
  loop_time : string;
  target_url : string;
  forward_request : upstream;
}.

(** [handle_bypass_request(request_body, headers, client_ip)] *)
Definition handle_bypass_request (env : environment) (request_body : json)
    (client_ip : string) : M JSONResponse :=
  let request_id := uuid_bypass env in
  broadcast_websocket
    (BypassRequest request_id client_ip request_body (target_url env));;
  match forward_request env with
  | Forwarded response_body status =>
      broadcast_websocket
        (BypassResponse request_id (JNum status) response_body true None);;
      ret (mkJSONResponse response_body (JNum status))
  | BypassError message =>
      broadcast_websocket
        (BypassResponse request_id (JNum 502)
           (JObj [("error", JStr message)]) false (Some message));;
      ret (mkJSONResponse (JObj [("error", JStr message)]) (JNum 502))
  end.

(** The loop of the preset branch of [handle_completion]: every send in
    its own [try]; a failure is logged and the client stays in the set. *)
Fixpoint send_completed (clients : list nat) (completed_data : event)
    : M unit :=
  match clients with
  | [] => ret tt
  | ws :: rest =>
      try_except (send_json ws completed_data)
        (except_Exception (modify (add_log (LogCompletedSendFailed ws))));;
      send_completed rest completed_data
  end.

(** The manual-mode part of [handle_completion] up to its [try]: the
    future is created, the request queued, the pipeline advanced. *)
Definition submit (req_id : string) (timestamp : string)
    (request : http_request) : M unit :=
  modify (set_request_futures (<[req_id := Pending]>));;
  let request_obj :=
    RequestObj req_id (client_host request) (client_port request)
      "POST" "/v1/completions" (hr_headers request) (hr_body request)
      timestamp "pending" in
  modify (set_pending_requests (λ q, q ++ [request_obj]));;
  modify (add_log
            (LogQueued req_id (client_host request) (client_port request)));;
  process_next_request.

(** How far a run of [handle_completion] got: it returned a response, or
    it is suspended in [wait_for]. *)
Inductive progress : Type :=
  | Responded (response : JSONResponse)
  | Suspended.

(** [handle_completion(request)] up to its first suspension in
    [wait_for]. *)
Definition handle_completion (env : environment) (request : http_request)
    : M progress :=
  let body := hr_body request in
  let client_ip := client_host request in
  let req_id := uuid_req env in
  let* enabled := gets bypass_enabled in
  if enabled then
    let* response := handle_bypass_request env body client_ip in
    ret (Responded response)
  else
    let* preset_result := check_and_pop client_ip in
    match preset_result with
    | Some (response_data, status) =>
        modify (add_log (LogAutoResponse client_ip status));;
        broadcast_queue_update "queue_updated" (Some client_ip);;
        let completed_data :=
          CompletedRequest (JStr req_id) client_ip (client_port request)
            body response_data status in
        let* clients := gets websocket_clients in
        send_completed clients completed_data;;
        ret (Responded (mkJSONResponse response_data status))
    | None =>
        submit req_id (loop_time env) request;;
        ret Suspended
    end.

(** The [timeout] of [asyncio.wait_for], in seconds. *)
Definition wait_timeout : Z := 300.

(** Whether [wait_for] is still waiting [elapsed] seconds after it was
    entered: the future is not done and the timeout has not run out.  The
    handler alone removes its future from the table, after the wait. *)
Definition waiting (req_id : string) (elapsed : Z) (s : state) : bool :=
  match request_futures s !! req_id with
  | Some f => negb (done f) && bool_decide (elapsed < wait_timeout)%Z
  | None => true
  end.

(** [await asyncio.wait_for(future, timeout=300)] when it stops waiting:
    the result or the exception of a future that is done; a future that
    is not done by the timeout is cancelled and [TimeoutError] raised. *)
Definition wait_for (req_id : string) : M (json * json) :=
  let* futures := gets request_futures in
  match futures !! req_id with
  | Some (Result response_data status) => ret (response_data, status)
  | Some (Failed e) => raise e
  | Some Cancelled => raise (CancelledError "")
  | _ =>
      modify (set_request_futures (alter (λ _, Cancelled) req_id));;
      raise TimeoutError
  end.

(** [handle_completion] from its [try] on, [elapsed] seconds after it
    entered [wait_for].  The inner [finally] only stops the disconnect
    watcher. *)
Definition handle_completion_resume (req_id : string) (elapsed : Z)
    : M progress :=
  let* still := gets (waiting req_id elapsed) in
  if still then ret Suspended
  else
    try_finally
      (try_except
         (let* r := wait_for req_id in
          ret (Responded (mkJSONResponse r.1 r.2)))
         (λ e, match e with
               | CancelledError _ =>
                   Some (modify (add_log (LogCancelled req_id));;
                         ret (Responded
                                (mkJSONResponse
                                   (JObj [("error",
                                           JStr "Request cancelled - client disconnected")])
                                   (JNum 499))))
               | TimeoutError =>
                   Some (modify (add_log (LogTimedOut req_id));;
                         ret (Responded
                                (mkJSONResponse
                                   (JObj [("error",
                                           JStr "Timeout waiting for mock response")])
                                   (JNum 504))))
               | _ => None
               end))
      (modify (set_request_futures (delete req_id));;
       _cleanup_current_request req_id).

End Handlers.

(** ** What the two send loops deliver *)

Section Delivery.

Variable send_fault : nat → option send_error.

(** The clients an unguarded loop reaches: those before the first one
    whose send fails. *)
Fixpoint reached (clients : list nat) : list nat :=
  match clients with
  | [] => []
  | ws :: rest =>
      match send_fault ws with
      | None => ws :: reached rest
      | Some _ => []
      end
  end.

(** The failure that ends an unguarded loop, if any. *)
Fixpoint first_fault (clients : list nat) : option send_error :=
  match clients with
  | [] => None
  | ws :: rest =>
      match send_fault ws with
      | None => first_fault rest
      | Some err => Some err
      end
  end.

Definition healthy (ws : nat) : bool :=
  match send_fault ws with
  | None => true
  | Some _ => false
  end.

(** [message] delivered to each of [clients], in order. *)
Definition deliver (clients : list nat) (message : event) (s : state)
    : state :=
  State (websocket_clients s) (pending_requests s) (current_request s)
    (request_futures s) (queues s) (bypass_enabled s)
    (wire s ++ map (λ ws, (ws, message)) clients) (log s).

(** The requests announced to consoles, in the order of the wire. *)
Definition announcements (s : state) : list (nat * request_obj) :=
  omap (λ d, match d.2 with
             | NewRequest r => Some (d.1, r)
             | _ => None
             end) (wire s).

(** The messages console [ws] received, oldest first. *)
Definition received (ws : nat) (s : state) : list event :=
  omap (λ d, if decide (d.1 = ws) then Some d.2 else None) (wire s).

(** The requests in the pipeline: the one in the slot, then the queue. *)
Definition pipeline (s : state) : list request_obj :=
  from_option (λ r, [r]) [] (current_request s) ++ pending_requests s.

(** A request is announced when it holds the [current_request] slot. *)
Definition announced (r : request_obj) (s : state) : Prop :=
  current_request s = Some r.

(** The effect of the guarded loop of [broadcast_websocket] on the wire
    and the log: the message to every healthy client, a warning for every
    other. *)
Definition broadcasted (clients : list nat) (message : event) (s : state)
    : state :=
  State (websocket_clients s) (pending_requests s) (current_request s)
    (request_futures s) (queues s) (bypass_enabled s)
    (wire s ++ map (λ ws, (ws, message)) (filter (λ ws, healthy ws) clients))
    (log s ++ map LogSendFailed (filter (λ ws, ¬ healthy ws) clients)).

(** The effect of the guarded loop of the preset branch: the message to
    every healthy client, a warning for every other; nobody leaves the
    set. *)
Definition completed (clients : list nat) (message : event) (s : state)
    : state :=
  State (websocket_clients s) (pending_requests s) (current_request s)
    (request_futures s) (queues s) (bypass_enabled s)
    (wire s ++ map (λ ws, (ws, message)) (filter (λ ws, healthy ws) clients))
    (log s ++
     map LogCompletedSendFailed (filter (λ ws, ¬ healthy ws) clients)).

(** The response [handle_bypass_request] returns. *)
Definition bypass_response (env : environment) : JSONResponse :=
  match forward_request env with
  | Forwarded response_body status =>
      mkJSONResponse response_body (JNum status)
  | BypassError message =>
      mkJSONResponse (JObj [("error", JStr message)]) (JNum 502)
  end.

(** The [request_obj] that [submit] queues. *)
Definition request_obj_of (req_id timestamp : string) (request : http_request)
    : request_obj :=
  RequestObj req_id (client_host request) (client_port request)
    "POST" "/v1/completions" (hr_headers request) (hr_body request)
    timestamp "pending".

(** A submission: the id drawn for it, the clock, the request. *)
Definition submission : Type := string * string * http_request.

Definition submitted (sub : submission) : request_obj :=
  request_obj_of sub.1.1 sub.1.2 sub.2.

(** Submissions one after the other, nothing in between. *)
Fixpoint submit_all (subs : list submission) (s : state) : state :=
  match subs with
  | [] => s
  | sub :: rest =>
      submit_all rest (exec (submit send_fault sub.1.1 sub.1.2 sub.2) s)
  end.

(** [n] times: the handler of the current request finishes and runs
    [_cleanup_current_request] on its own id. *)
Fixpoint drain (n : nat) (s : state) : state :=
  match n with
  | 0 => s
  | S n =>
      match current_request s with
      | Some cur =>
          drain n (exec (_cleanup_current_request send_fault (rq_id cur)) s)
      | None => s
      end
  end.

(** The operator message that resolves [req_id]. *)
Definition send_response (req_id : string) (response_data status : json)
    : json :=
  JObj [("type", JStr "send_response"); ("id", JStr req_id);
        ("status_code", status); ("response", response_data)].

(** The two ways a future is completed from outside its handler: the
    operator resolves it, the disconnect watcher cancels it. *)
Inductive completion : Type :=
  | Resolve (response_data status : json)
  | Cancel.

Definition complete (c : completion) (req_id : string) : M unit :=
  match c with
  | Resolve response_data status =>
      on_message send_fault (send_response req_id response_data status)
  | Cancel => cancel req_id
  end.

End Delivery.

(** ** Scenarios *)

Definition all_good : nat → option send_error := λ _, None.

Definition console_1_dead : nat → option send_error :=
  λ ws, if decide (ws = 1) then Some SendClosed else None.

Definition request_from (host : string) : http_request :=
  HttpRequest (JObj [("model", JStr "gpt-3.5-turbo")]) host 40000 [].

Definition env_for (req_id : string) : environment :=
  Environment req_id "bypass-1" "0.0" "http://upstream/v1/chat/completions"
    (Forwarded (JObj [("object", JStr "chat.completion")]) 200).

(** Requests [A] then [B] submitted to the fresh state: [A] is current,
    [B] waits in the queue, both futures are pending. *)
Definition two_submitted : state :=
  exec (handle_completion all_good (env_for "B") (request_from "10.0.0.2"))
    (exec (handle_completion all_good (env_for "A") (request_from "10.0.0.1"))
       initial_state).

(** The same with consoles 1 and 2 connected beforehand. *)
Definition two_consoles_two_submitted : state :=
  exec (handle_completion all_good (env_for "B") (request_from "10.0.0.2"))
    (exec (handle_completion all_good (env_for "A") (request_from "10.0.0.1"))
       (exec (websocket_endpoint all_good 2 [])
          (exec (websocket_endpoint all_good 1 []) initial_state))).

(** A fresh state with one preset response queued for each of two
    addresses. *)
Definition two_presets : state :=
  set_queues
    (λ _, <["10.0.0.1" := [PresetItem "p1" (JStr "first") (JNum 200) 0;
                            PresetItem "p2" (JStr "second") (JNum 201) 0]]>
            (<["10.0.0.9" := [PresetItem "p3" (JStr "other") (JNum 200) 0]]> ∅))
    initial_state.

(** ** The preset queue manager: the other methods of
    [PresetQueueManager]

    The identifier a method draws from [uuid.uuid4()] and the reading of
    [time.time()] are arguments.  The lock and the write of the
    persistence file are not modelled. *)

(** [list(self._queues[ip])], the empty list for an address without a
    deque. *)
Definition queue_of (ip : string) (s : state) : list preset_item :=
  default [] (queues s !! ip).

(** [add_response(ip, response, status_code)]: the deque of a new
    address is created, the item appended. *)
Definition add_response (response_id : string) (created_at : Z)
    (ip : string) (response status : json) : M string :=
  let preset_item := PresetItem response_id response status created_at in
  modify (set_queues
            (λ qs, <[ip := default [] (qs !! ip) ++ [preset_item]]> qs));;
  ret response_id.

(** [get_queue(ip)] *)
Definition get_queue (ip : string) : M (list preset_item) :=
  gets (queue_of ip).

(** [get_all_queues()] *)
Definition get_all_queues : M (gmap string (list preset_item)) :=
  gets queues.

(** [delete_response(ip, response_id)]: the deque is rebuilt without the
    items of that id; the answer tells whether it got shorter. *)
Definition delete_response (ip response_id : string) : M bool :=
  let* qs := gets queues in
  match qs !! ip with
  | None => ret false
  | Some q =>
      let kept := filter (λ item, pi_id item ≠ response_id) q in
      modify (set_queues (<[ip := kept]>));;
      ret (bool_decide (length kept < length q)%nat)
  end.

(** [clear_queue(ip)]: the deque is emptied, its key stays. *)
Definition clear_queue (ip : string) : M bool :=
  let* qs := gets queues in
  match qs !! ip with
  | Some _ => modify (set_queues (<[ip := []]>));; ret true
  | None => ret false
  end.

(** [delete_queue(ip)]: the key is removed. *)
Definition delete_queue (ip : string) : M bool :=
  let* qs := gets queues in
  match qs !! ip with
  | Some _ => modify (set_queues (delete ip));; ret true
  | None => ret false
  end.

(** [clear_all_queues()] *)
Definition clear_all_queues : M unit :=
  modify (set_queues (λ _, ∅)).

(** [get_queue_length(ip)] *)
Definition get_queue_length (ip : string) (s : state) : nat :=
  length (queue_of ip s).

(** The items added one after the other, each under its own id and
    clock reading. *)
Fixpoint add_all (ip : string) (items : list preset_item) : M unit :=
  match items with
  | [] => ret tt
  | item :: rest =>
      add_response (pi_id item) (pi_created_at item) ip
        (pi_response item) (pi_status_code item);;
      add_all ip rest
  end.

(** [check_and_pop(ip)] called [n] times, the answers in order. *)
Fixpoint pop_n (n : nat) (ip : string) : M (list (option (json * json))) :=
  match n with
  | 0 => ret []
  | S n =>
      let* answer := check_and_pop ip in
      let* answers := pop_n n ip in
      ret (answer :: answers)
  end.

(** What [check_and_pop] answers for an item. *)
Definition served (item : preset_item) : json * json :=
  (pi_response item, pi_status_code item).

(** ** The validator and the REST routes of the preset queues:
    [preset_validator.py] and [api_routes.py]

    [json.loads] and the UTF-8 decoder are library code and come in as
    parameters; the values a route draws from [uuid.uuid4()] and
    [time.time()] for its [idx]-th element come in as functions of
    [idx].  What [json.dumps] makes of an exported list is not
    modelled: an export is the list itself. *)

(** [isinstance(v, dict)] and [isinstance(v, list)] *)
Definition is_dict (v : json) : bool :=
  match v with
  | JObj _ => true
  | _ => false
  end.

(** What [json.loads] raises. *)
Inductive json_error : Type :=
  | DecodeError (lineno colno : nat) (msg : string)
  | OtherError (text : string).

(** What a route returns: its body, or the [HTTPException] it raises. *)
Inductive http (A : Type) : Type :=
  | Ok (body : A)
  | HTTPException (status : Z) (detail : string).
Arguments Ok {A} body.
Arguments HTTPException {A} status detail.

(** [PresetValidator.validate_response_object(obj)] *)
Definition validate_response_object (obj : json) : bool * option string :=
  if is_dict obj then (true, None)
  else (false, Some "响应必须是JSON对象").

(** The loop of [PresetValidator.validate_array_elements], from index
    [idx] on. *)
Fixpoint validate_array_elements_from (idx : nat) (arr : list json)
    : list (nat * string) :=
  match arr with
  | [] => []
  | item :: rest =>
      (if is_dict item then []
       else [(idx, "元素 " +:+ pretty idx +:+ " 不是有效的JSON对象")])
      ++ validate_array_elements_from (S idx) rest
  end.

(** [PresetValidator.validate_array_elements(arr)] *)
Definition validate_array_elements (arr : list json) : list (nat * string) :=
  validate_array_elements_from 0 arr.

(** The bodies [batch_add_responses] and [import_queue] return, without
    their constant ["success": True]. *)
Record batch_result : Type := BatchResult {
  batch_added_count : nat;
  batch_failed_count : nat;
  batch_errors : list (nat * string);
  batch_queue_length : nat;
}.

Record import_result : Type := ImportResult {
  import_total : nat;
  import_added_count : nat;
  import_failed_count : nat;
  import_errors : list (nat * string);
}.

Section Routes.

Variable send_fault : nat → option send_error.
Variable decode_utf8 : string → option string.
Variable json_loads : string → json + json_error.

(** [PresetValidator.validate_json(data)] *)
Definition validate_json (data : string)
    : bool * option json * option string :=
  match json_loads data with
  | inl parsed => (true, Some parsed, None)
  | inr (DecodeError lineno colno msg) =>
      (false, None,
       Some ("JSON格式错误: 行" +:+ pretty lineno +:+ " 列" +:+ pretty colno
             +:+ " - " +:+ msg))
  | inr (OtherError text) => (false, None, Some ("JSON格式错误: " +:+ text))
  end.

(** [PresetValidator.validate_import_array(data)] *)
Definition validate_import_array (data : string)
    : bool * option (list json) * option string :=
  match validate_json data with
  | (true, Some (JArr arr), _) => (true, Some arr, None)
  | (true, _, _) => (false, None, Some "导入文件必须是JSON数组")
  | (false, _, error) => (false, None, error)
  end.

(** The loop [for idx, response in enumerate(...)] of
    [batch_add_responses] and [import_queue], from index [idx] on: an
    element is added unless [errors] names its index. *)
Fixpoint add_valid (ids : nat → string) (clock : nat → Z) (ip : string)
    (status : json) (errors : list (nat * string)) (idx : nat)
    (responses : list json) (added : list string) : M (list string) :=
  match responses with
  | [] => ret added
  | response :: rest =>
      if existsb (λ e, Nat.eqb e.1 idx) errors then
        add_valid ids clock ip status errors (S idx) rest added
      else
        let* response_id :=
          add_response (ids idx) (clock idx) ip response status in
        add_valid ids clock ip status errors (S idx) rest
          (added ++ [response_id])
  end.

(** [POST /api/preset-queue/{ip}]; the model of the request makes
    [response] a dict. *)
Definition add_response_route (response_id : string) (created_at : Z)
    (ip : string) (response : list (string * json)) (status : Z)
    : M (http (string * nat)) :=
  match validate_response_object (JObj response) with
  | (false, error) => ret (HTTPException 400 (default "" error))
  | (true, _) =>
      let* response_id :=
        add_response response_id created_at ip (JObj response)
          (JNum status) in
      broadcast_queue_update send_fault "queue_updated" (Some ip);;
      let* length := gets (get_queue_length ip) in
      ret (Ok (response_id, length))
  end.

(** [POST /api/preset-queue/{ip}/batch]; the model of the request makes
    every element of [responses] a dict. *)
Definition batch_add_responses (ids : nat → string) (clock : nat → Z)
    (ip : string) (responses : list (list (string * json))) (status : Z)
    : M (http batch_result) :=
  let responses := map JObj responses in
  let errors := validate_array_elements responses in
  let* added := add_valid ids clock ip (JNum status) errors 0 responses [] in
  broadcast_queue_update send_fault "queue_updated" (Some ip);;
  let* length := gets (get_queue_length ip) in
  ret (Ok (BatchResult (List.length added) (List.length errors) errors
             length)).

(** [POST /api/preset-queue/{ip}/import] on the bytes of the uploaded
    file. *)
Definition import_queue (ids : nat → string) (clock : nat → Z)
    (ip : string) (content : string) : M (http import_result) :=
  if (10 * 1024 * 1024 <? Z.of_nat (String.length content))%Z then
    ret (HTTPException 400 "文件大小超过10MB限制")
  else
    match decode_utf8 content with
    | None => ret (HTTPException 400 "文件编码错误，请使用UTF-8编码")
    | Some content_str =>
        match validate_import_array content_str with
        | (true, Some parsed_array, _) =>
            let element_errors := validate_array_elements parsed_array in
            let* added :=
              add_valid ids clock ip (JNum 200) element_errors 0
                parsed_array [] in
            broadcast_queue_update send_fault "queue_updated" (Some ip);;
            ret (Ok (ImportResult (List.length parsed_array)
                       (List.length added) (List.length element_errors)
                       element_errors))
        | (_, _, error) => ret (HTTPException 400 (default "" error))
        end
    end.

(** [GET /api/preset-queue/{ip}/export]: the response bodies of the
    queue, in order. *)
Definition export_queue (ip : string) : M (http (list json)) :=
  let* queue := get_queue ip in
  match queue with
  | [] => ret (HTTPException 404 ("IP " +:+ ip +:+ " 的队列不存在或为空"))
  | _ => ret (Ok (map pi_response queue))
  end.

(** [DELETE /api/preset-queue/{ip}/{response_id}] *)
Definition delete_response_route (ip response_id : string) : M (http unit) :=
  let* success := delete_response ip response_id in
  if success then
    broadcast_queue_update send_fault "queue_updated" (Some ip);;
    ret (Ok tt)
  else ret (HTTPException 404 "响应不存在").

(** [DELETE /api/preset-queue/{ip}] *)
Definition clear_queue_route (ip : string) : M (http unit) :=
  let* success := clear_queue ip in
  if success then
    broadcast_queue_update send_fault "queue_updated" (Some ip);;
    ret (Ok tt)
  else ret (HTTPException 404 "队列不存在").

(** [DELETE /api/preset-queue] *)
Definition clear_all_queues_route : M (http unit) :=
  clear_all_queues;;
  broadcast_queue_update send_fault "all_queues_updated" None;;
  ret (Ok tt).

End Routes.

(** The items a batch or an import appends for the elements of [arr]
    from index [idx] on: one for every element that is a dict. *)
Fixpoint imported (ids : nat → string) (clock : nat → Z) (status : json)
    (idx : nat) (arr : list json) : list preset_item :=
  match arr with
  | [] => []
  | item :: rest =>
      (if is_dict item then [PresetItem (ids idx) item status (clock idx)]
       else [])
      ++ imported ids clock status (S idx) rest
  end.

(** ** The bypass configuration: [bypass_config.py]

    The manager holds one [BypassConfig]; its methods are functions of
    that configuration and of the reading of the clock.  The regular
    expression that a host name must match is library code and comes in
    as a parameter; the file the configuration is persisted to is not
    modelled. *)

Record BypassConfig : Type := mkBypassConfig {
  enabled : bool;
  target_host : string;
  target_port : Z;
  target_uri : string;
  api_key : option string;
  use_https : bool;
  timeout : Z;
  updated_at : Z;
}.

(** [BypassConfig()] *)
Definition default_config : BypassConfig :=
  mkBypassConfig false "api.openai.com" 443 "/v1/chat/completions" None
    false 60 0.

(** What a method of the manager returns, or the
    [ConfigValidationError] it raises. *)
Inductive config_result (A : Type) : Type :=
  | ConfigOk (a : A)
  | ConfigValidationError (message : string).
Arguments ConfigOk {A} a.
Arguments ConfigValidationError {A} message.

(** [uri.startswith('/')] *)
Definition starts_with_slash (uri : string) : bool :=
  String.prefix "/" uri.

(** The keyword arguments [update_bypass_config] passes on: the fields
    of the request that are not [None]. *)
Record config_update : Type := ConfigUpdate {
  new_target_host : option string;
  new_target_port : option Z;
  new_target_uri : option string;
  new_api_key : option string;
  new_use_https : option bool;
  new_timeout : option Z;
}.

Section BypassConfigManager.

(** [re.match(r'^[\w\.\-]+$', host)] *)
Variable host_matches : string → bool.

(** [_validate_config(config)]: the message of the error it raises,
    [None] when it returns. *)
Definition _validate_config (config : BypassConfig) : option string :=
  if decide (target_host config = "") then
    Some "target_host cannot be empty"
  else if negb (host_matches (target_host config)) then
    Some ("Invalid target_host format: " +:+ target_host config)
  else if negb ((1 <=? target_port config)%Z
                && (target_port config <=? 65535)%Z) then
    Some ("target_port must be 1-65535, got "
          +:+ pretty (target_port config))
  else if negb (starts_with_slash (target_uri config)) then
    Some "target_uri must start with '/'"
  else if negb ((1 <=? timeout config)%Z && (timeout config <=? 300)%Z) then
    Some ("timeout must be 1-300 seconds, got " +:+ pretty (timeout config))
  else None.

(** [config_dict.update(kwargs)] and the new [updated_at]. *)
Definition updated (now : Z) (kwargs : config_update) (config : BypassConfig)
    : BypassConfig :=
  mkBypassConfig (enabled config)
    (default (target_host config) (new_target_host kwargs))
    (default (target_port config) (new_target_port kwargs))
    (default (target_uri config) (new_target_uri kwargs))
    (match new_api_key kwargs with
     | Some k => Some k
     | None => api_key config
     end)
    (default (use_https config) (new_use_https kwargs))
    (default (timeout config) (new_timeout kwargs))
    now.

(** [update_config] on its keyword arguments: the answer and the
    configuration the manager holds afterwards. *)
Definition update_config (now : Z) (kwargs : config_update)
    (config : BypassConfig) : config_result BypassConfig * BypassConfig :=
  let new_config := updated now kwargs config in
  match _validate_config new_config with
  | Some message => (ConfigValidationError message, config)
  | None => (ConfigOk new_config, new_config)
  end.

(** [enable()] *)
Definition enable (now : Z) (config : BypassConfig)
    : config_result bool * BypassConfig :=
  if decide (target_host config = "") then
    (ConfigValidationError "target_host is required", config)
  else if decide (target_port config = 0%Z) then
    (ConfigValidationError "target_port is required", config)
  else
    (ConfigOk true,
     mkBypassConfig true (target_host config) (target_port config)
       (target_uri config) (api_key config) (use_https config)
       (timeout config) now).

(** [disable()] *)
Definition disable (now : Z) (config : BypassConfig)
    : config_result bool * BypassConfig :=
  (ConfigOk true,
   mkBypassConfig false (target_host config) (target_port config)
     (target_uri config) (api_key config) (use_https config)
     (timeout config) now).

(** [is_enabled()] *)
Definition is_enabled (config : BypassConfig) : bool := enabled config.

(** The calls made on a manager, by the clock reading at the call. *)
Inductive config_call : Type :=
  | CallUpdate (now : Z) (kwargs : config_update)
  | CallEnable (now : Z)
  | CallDisable (now : Z).

Definition call (c : config_call) (config : BypassConfig) : BypassConfig :=
  match c with
  | CallUpdate now kwargs => (update_config now kwargs config).2
  | CallEnable now => (enable now config).2
  | CallDisable now => (disable now config).2
  end.

End BypassConfigManager.

(** ** The forwarded request: [bypass_handler.py]

    A header dict is the list of its items in insertion order, with
    distinct keys.  [str.lower] is library code and comes in as a
    parameter. *)

Definition HOP_BY_HOP_HEADERS : list string :=
  ["connection"; "keep-alive"; "proxy-authenticate"; "proxy-authorization";
   "te"; "trailers"; "transfer-encoding"; "upgrade"; "host";
   "content-length"].

(** [headers[key] = value]: the value of a key that is there is
    replaced in place, a new key goes to the end. *)
Fixpoint header_set (key value : string) (headers : list (string * string))
    : list (string * string) :=
  match headers with
  | [] => [(key, value)]
  | (k, v) :: rest =>
      if decide (k = key) then (key, value) :: rest
      else (k, v) :: header_set key value rest
  end.

(** [headers.get(key)] *)
Fixpoint header_get (key : string) (headers : list (string * string))
    : option string :=
  match headers with
  | [] => None
  | (k, v) :: rest => if decide (k = key) then Some v else header_get key rest
  end.

Section BypassHandler.

Variable lower : string → string.

(** The first loop of [_prepare_headers]: the headers that are not
    hop-by-hop are copied. *)
Fixpoint copy_end_to_end (original headers : list (string * string))
    : list (string * string) :=
  match original with
  | [] => headers
  | (key, value) :: rest =>
      if decide (lower key ∈ HOP_BY_HOP_HEADERS) then
        copy_end_to_end rest headers
      else copy_end_to_end rest (header_set key value headers)
  end.

(** [_prepare_headers(original_headers, config)] *)
Definition _prepare_headers (original_headers : list (string * string))
    (config : BypassConfig) : list (string * string) :=
  let headers := copy_end_to_end original_headers [] in
  let headers :=
    match api_key config with
    | Some k =>
        if decide (k = "") then headers
        else header_set "Authorization" ("Bearer " +:+ k) headers
    | None => headers
    end in
  if decide ("content-type" ∈ map (λ kv, lower kv.1) headers) then headers
  else header_set "Content-Type" "application/json" headers.

(** [_build_url(config)] *)
Definition _build_url (config : BypassConfig) : string :=
  let scheme := if use_https config then "https" else "http" in
  if (use_https config && bool_decide (target_port config = 443%Z))
     || (negb (use_https config) && bool_decide (target_port config = 80%Z))
  then scheme +:+ "://" +:+ target_host config +:+ target_uri config
  else scheme +:+ "://" +:+ target_host config +:+ ":"
       +:+ pretty (target_port config) +:+ target_uri config.

End BypassHandler.

(** [str.lower] and the host pattern on ASCII strings, for the
    scenarios. *)
Fixpoint ascii_lower (s : string) : string :=
  match s with
  | EmptyString => EmptyString
  | String c rest =>
      let n := Ascii.nat_of_ascii c in
      String (if Nat.leb 65 n && Nat.leb n 90
              then Ascii.ascii_of_nat (n + 32) else c)
        (ascii_lower rest)
  end.

Fixpoint ascii_word (s : string) : bool :=
  match s with
  | EmptyString => true
  | String c rest =>
      let n := Ascii.nat_of_ascii c in
      ((Nat.leb 48 n && Nat.leb n 57) || (Nat.leb 65 n && Nat.leb n 90)
       || (Nat.leb 97 n && Nat.leb n 122) || Nat.eqb n 95 || Nat.eqb n 46
       || Nat.eqb n 45)
      && ascii_word rest
  end.

Definition ascii_host_matches (host : string) : bool :=
  negb (bool_decide (host = "")) && ascii_word host.

(** A decoder and a parser for the scenarios: every byte string
    decodes to itself, and one text parses, to an array of an object, a
    number and another object. *)
Definition decode_all : string → option string := Some.

Definition loads_one_array : string → json + json_error :=
  λ text,
    if decide (text = "[{}, 1, {}]") then
      inl (JArr [JObj []; JNum 1; JObj []])
    else inr (DecodeError 1 1 "Expecting value").

(** ** Runs of the server

    What happens to the server, one handler run at a time: a console
    connects and its first frames arrive, further frames arrive on an
    open connection, a request comes in, a suspended request is woken, a
    disconnect watcher finds its caller gone.  Every step comes with the
    health of the consoles at that time. *)

Inductive action : Type :=
  | Connect (ws : nat) (frames : list frame)
  | Receive (ws : nat) (frames : list frame)
  | Request (env : environment) (request : http_request)
  | Resume (req_id : string) (elapsed : Z)
  | CallerGone (req_id : string).

Definition perform (send_fault : nat → option send_error) (a : action)
    (s : state) : state :=
  match a with
  | Connect ws frames => exec (websocket_endpoint send_fault ws frames) s
  | Receive ws frames => exec (serve send_fault ws frames) s
  | Request env request => exec (handle_completion send_fault env request) s
  | Resume req_id elapsed =>
      exec (handle_completion_resume send_fault req_id elapsed) s
  | CallerGone req_id => exec (_check_client_disconnect req_id) s
  end.

Fixpoint run (steps : list ((nat → option send_error) * action)) (s : state)
    : state :=
  match steps with
  | [] => s
  | step :: rest => run rest (perform step.1 step.2 s)
  end.

(** The ids of the requests queued so far and of those taken into the
    slot so far, as the log records them, oldest first. *)
Definition queued_ids (s : state) : list string :=
  omap (λ entry, match entry with
                 | LogQueued req_id _ _ => Some req_id
                 | _ => None
                 end) (log s).

Definition processed_ids (s : state) : list string :=
  omap (λ entry, match entry with
                 | LogProcessing req_id => Some req_id
                 | _ => None
                 end) (log s).

(** The requests taken into the slot so far, followed by those that
    still wait, are the requests queued so far, in the order they were
    queued. *)
Definition served_in_order (s : state) : Prop :=
  processed_ids s ++ map rq_id (pending_requests s) = queued_ids s.

(** A computation keeps a property of the state. *)
Definition preserves (I : state → Prop) {A} (m : M A) : Prop :=
  ∀ s, I s → I (m s).2.

(** ** Properties *)

(** Unfolding steps for the handlers, by name. *)
Ltac open_process_next_request := unfold process_next_request.
Ltac open_cleanup_current_request := unfold _cleanup_current_request.
Ltac open_on_message := unfold on_message.
Ltac open_serve := unfold serve.
Ltac open_handle_completion := unfold handle_completion.
Ltac open_handle_completion_resume := unfold handle_completion_resume.
Ltac step_submit_all := cbn [submit_all fst snd map head tail length].
Ltac step_drain := cbn [drain].
Ltac step_complete := cbn [complete].

Section Properties.

Variable send_fault : nat → option send_error.

Abbreviation send_to_each := (send_to_each send_fault).
Abbreviation process_next_request := (process_next_request send_fault).
Abbreviation reached := (reached send_fault).
Abbreviation first_fault := (first_fault send_fault).
Abbreviation healthy := (healthy send_fault).
Abbreviation _cleanup_current_request := (_cleanup_current_request send_fault).
Abbreviation submit := (submit send_fault).
Abbreviation submit_all := (submit_all send_fault).
Abbreviation drain := (drain send_fault).
Abbreviation on_message := (on_message send_fault).
Abbreviation complete := (complete send_fault).
Abbreviation serve := (serve send_fault).
Abbreviation handle_completion := (handle_completion send_fault).
Abbreviation handle_completion_resume := (handle_completion_resume send_fault).

Lemma deliver_nil message s : deliver [] message s = s.
Proof. destruct s. unfold deliver. simpl. by rewrite app_nil_r. Qed.

Lemma deliver_cons ws clients message s :
  deliver (ws :: clients) message s = deliver clients message (emit ws message s).
Proof. destruct s. unfold deliver, emit. simpl. by rewrite <- app_assoc. Qed.

Lemma send_to_each_run clients message s :
  send_to_each clients message s =
    (match first_fault clients with
     | None => Returned tt
     | Some err => Raised (exn_of_send_error err)
     end, deliver (reached clients) message s).
Proof.
  revert s. induction clients as [|ws rest IH]; intros s; simpl.
  - by rewrite deliver_nil.
  - unfold bind, send_json. destruct (send_fault ws) as [err|].
    + by rewrite deliver_nil.
    + by rewrite IH, deliver_cons.
Qed.

Lemma process_next_request_run s :
  process_next_request s =
    match current_request s, pending_requests s with
    | None, next :: rest =>
        (match first_fault (websocket_clients s) with
         | None => Returned tt
         | Some err => Raised (exn_of_send_error err)
         end,
         deliver (reached (websocket_clients s)) (NewRequest next)
           (add_log (LogProcessing (rq_id next))
              (set_current_request (Some next)
                 (set_pending_requests (λ _, rest) s))))
    | _, _ => (Returned tt, s)
    end.
Proof.
  open_process_next_request; unfold bind, gets. simpl.
  destruct (current_request s); [done|].
  destruct (pending_requests s) as [|next rest]; [done|].
  unfold modify, ret. simpl. by rewrite send_to_each_run.
Qed.

Lemma broadcasted_nil message s : broadcasted send_fault [] message s = s.
Proof. destruct s. unfold broadcasted. simpl. by rewrite !app_nil_r. Qed.

Lemma broadcast_loop_run clients message disconnected s :
  broadcast_loop send_fault clients message disconnected s =
    (Returned (disconnected ++ filter (λ ws, ¬ healthy ws) clients),
     broadcasted send_fault clients message s).
Proof.
  revert disconnected s.
  induction clients as [|ws rest IH]; intros disconnected s.
  - simpl. by rewrite broadcasted_nil, app_nil_r.
  - assert (healthy ws = match send_fault ws with
                         | None => true
                         | Some _ => false
                         end) as Hh by done.
    unfold broadcasted. rewrite !filter_cons.
    cbn [broadcast_loop]. unfold bind at 1. unfold try_except, bind at 1.
    unfold send_json. destruct (send_fault ws) as [err|] eqn:Hws.
    + assert (except_Exception
                (modify (add_log (LogSendFailed ws));;
                 ret (disconnected ++ [ws])) (exn_of_send_error err)
              = Some (modify (add_log (LogSendFailed ws));;
                      ret (disconnected ++ [ws]))) as -> by by destruct err.
      repeat case_decide; try (rewrite Hh in *; simpl in *; tauto).
      cbn. rewrite IH. unfold broadcasted. destruct s; cbn.
      by rewrite <- !app_assoc.
    + repeat case_decide; try (rewrite Hh in *; simpl in *; tauto).
      cbn. rewrite IH. unfold broadcasted. destruct s; cbn.
      by rewrite <- !app_assoc.
Qed.

Lemma filter_not_disconnected (clients l : list nat) :
  l ⊆ clients →
  filter (λ ws, ws ∉ filter (λ ws, ¬ healthy ws) clients) l =
    filter (λ ws, healthy ws) l.
Proof.
  induction l as [|ws l IH]; intros Hsub; [done|].
  assert (ws ∈ clients) as Hin by (apply Hsub; left).
  assert (l ⊆ clients) as Hl by (intros x Hx; apply Hsub; by right).
  destruct (healthy ws) eqn:Hws.
  - rewrite (filter_cons_True (λ ws, healthy ws)) by (by rewrite Hws).
    rewrite filter_cons_True; [by rewrite IH|].
    rewrite list_elem_of_filter, Hws. intros [Hn _]. by apply Hn.
  - rewrite (filter_cons_False (λ ws, healthy ws)) by (rewrite Hws; tauto).
    rewrite filter_cons_False; [by rewrite IH|].
    intros Hn. apply Hn. apply list_elem_of_filter. split; [|done].
    rewrite Hws. tauto.
Qed.

(** [broadcast_websocket] never raises: every healthy console gets the
    message, every other is logged and leaves the set. *)
Lemma broadcast_websocket_run message s :
  broadcast_websocket send_fault message s =
    (Returned tt,
     set_websocket_clients (filter (λ ws, healthy ws))
       (broadcasted send_fault (websocket_clients s) message s)).
Proof.
  unfold broadcast_websocket, bind, gets. rewrite broadcast_loop_run.
  unfold modify. f_equal. destruct s as [cl pend cur fut qs byp w lg].
  unfold set_websocket_clients, broadcasted. cbn. f_equal.
  by apply filter_not_disconnected.
Qed.

(** C7. [process_next_request] does nothing when the slot is occupied or
    the queue is empty; otherwise it takes exactly the head of the queue
    into the slot, leaves the rest of the queue, and announces the head.
    Running it twice is running it once, and at most one request is
    announced at a time. *)
Theorem process_next_request_single_slot (s : state) :
  (current_request s ≠ None ∨ pending_requests s = [] →
     process_next_request s = (Returned tt, s)) ∧
  (∀ next rest,
     current_request s = None → pending_requests s = next :: rest →
     exec process_next_request s =
       deliver (reached (websocket_clients s)) (NewRequest next)
         (add_log (LogProcessing (rq_id next))
            (set_current_request (Some next)
               (set_pending_requests (λ _, rest) s)))) ∧
  exec process_next_request (exec process_next_request s) =
    exec process_next_request s ∧
  (∀ r1 r2, announced r1 s → announced r2 s → r1 = r2).
Proof.
  repeat split.
  - intros [Hcur | Hq]; rewrite process_next_request_run.
    + by destruct (current_request s).
    + rewrite Hq. by destruct (current_request s).
  - intros next rest Hcur Hq. unfold exec.
    by rewrite process_next_request_run, Hcur, Hq.
  - unfold exec. rewrite (process_next_request_run s).
    destruct (current_request s) as [cur|] eqn:Hcur.
    + cbn [snd]. by rewrite process_next_request_run, Hcur.
    + destruct (pending_requests s) as [|next rest] eqn:Hq; cbn [snd].
      * by rewrite process_next_request_run, Hcur, Hq.
      * by rewrite process_next_request_run.
  - unfold announced. congruence.
Qed.

Lemma _cleanup_current_request_run req_id s :
  _cleanup_current_request req_id s =
    match current_request s with
    | Some cur =>
        if decide (rq_id cur = req_id) then
          process_next_request
            (set_current_request None (add_log (LogCleaningUp req_id) s))
        else (Returned tt, s)
    | None => (Returned tt, s)
    end.
Proof.
  open_cleanup_current_request; unfold bind, gets. cbn.
  destruct (current_request s) as [cur|]; [|done].
  by destruct (decide (rq_id cur = req_id)).
Qed.

(** The guard of [_cleanup_current_request]: the slot of another request
    is left alone. *)
Lemma _cleanup_current_request_other req_id cur s :
  current_request s = Some cur → rq_id cur ≠ req_id →
  _cleanup_current_request req_id s = (Returned tt, s).
Proof.
  intros Hcur Hne. rewrite _cleanup_current_request_run, Hcur.
  by rewrite decide_False.
Qed.

Lemma submit_run req_id timestamp request s :
  submit req_id timestamp request s =
    process_next_request
      (add_log (LogQueued req_id (client_host request) (client_port request))
         (set_pending_requests
            (λ q, q ++ [request_obj_of req_id timestamp request])
            (set_request_futures (<[req_id := Pending]>) s))).
Proof. done. Qed.

Lemma announcements_deliver clients r s :
  announcements (deliver clients (NewRequest r) s) =
    announcements s ++ map (λ ws, (ws, r)) clients.
Proof.
  unfold announcements, deliver. cbn. rewrite omap_app. f_equal.
  induction clients as [|ws rest IH]; [done|]. cbn. by rewrite IH.
Qed.

(** What a submission does to a busy coordinator: the request joins the
    tail of the queue and nothing is sent. *)
Lemma submit_busy req_id timestamp request cur s :
  current_request s = Some cur →
  let s' := exec (submit req_id timestamp request) s in
  current_request s' = Some cur ∧
  pending_requests s' =
    pending_requests s ++ [request_obj_of req_id timestamp request] ∧
  wire s' = wire s ∧ websocket_clients s' = websocket_clients s.
Proof.
  intros Hcur. unfold exec. rewrite submit_run, process_next_request_run.
  cbn. by rewrite Hcur.
Qed.

Lemma submit_all_busy subs cur s :
  current_request s = Some cur →
  let s' := submit_all subs s in
  current_request s' = Some cur ∧
  pending_requests s' = pending_requests s ++ map submitted subs ∧
  wire s' = wire s ∧ websocket_clients s' = websocket_clients s.
Proof.
  revert s. induction subs as [|[[i t] r] rest IH]; intros s Hcur.
  - cbn. by rewrite app_nil_r.
  - step_submit_all.
    destruct (submit_busy i t r cur s Hcur) as (H1 & H2 & H3 & H4).
    destruct (IH _ H1) as (G1 & G2 & G3 & G4). cbn zeta.
    rewrite G1, G2, G3, G4, H2, H3, H4. cbn. by rewrite <- app_assoc.
Qed.

(** Finishing the current request over and over announces the queue from
    its head on. *)
Lemma drain_announces q : ∀ n cur s,
  current_request s = Some cur → pending_requests s = q → (length q ≤ n)%nat →
  announcements (drain n s) =
    announcements s ++
    flat_map (λ r, map (λ ws, (ws, r)) (reached (websocket_clients s))) q.
Proof.
  induction q as [|next rest IH]; intros n cur s Hcur Hq Hn.
  - cbn. rewrite app_nil_r. destruct n as [|n]; [done|].
    step_drain. rewrite Hcur. unfold exec.
    rewrite _cleanup_current_request_run, Hcur, decide_True by done.
    rewrite process_next_request_run. cbn. rewrite Hq. cbn.
    by destruct n.
  - destruct n as [|n]; [cbn in Hn; lia|].
    step_drain. rewrite Hcur. unfold exec.
    rewrite _cleanup_current_request_run, Hcur, decide_True by done.
    rewrite process_next_request_run. cbn [current_request set_current_request
      pending_requests add_log]. rewrite Hq. cbn [snd].
    rewrite (IH n next); [| done | done | cbn in Hn; lia].
    rewrite announcements_deliver. cbn. by rewrite <- app_assoc.
Qed.

(** C6. Requests submitted one after the other to an idle coordinator
    are announced in the order of submission: the first takes the slot at
    once, the others wait in the queue in that order, and as each current
    request finishes the next oldest is announced to the consoles. *)
Theorem announcements_fifo (subs : list submission) (s : state) :
  current_request s = None → pending_requests s = [] →
  let s1 := submit_all subs s in
  current_request s1 = head (map submitted subs) ∧
  pending_requests s1 = tail (map submitted subs) ∧
  announcements (drain (length subs) s1) =
    announcements s ++
    flat_map (λ r, map (λ ws, (ws, r)) (reached (websocket_clients s)))
      (map submitted subs).
Proof.
  intros Hcur Hq. destruct subs as [|[[i t] r] rest].
  - cbn. by rewrite Hcur, Hq, app_nil_r.
  - step_submit_all.
    set (s0 := exec (submit i t r) s).
    assert (current_request s0 = Some (submitted (i, t, r)) ∧
            pending_requests s0 = [] ∧
            websocket_clients s0 = websocket_clients s ∧
            announcements s0 =
              announcements s ++
              map (λ ws, (ws, submitted (i, t, r)))
                (reached (websocket_clients s))) as (H1 & H2 & H3 & H4).
    { unfold s0, exec. rewrite submit_run, process_next_request_run.
      cbn [current_request pending_requests add_log set_pending_requests
           set_request_futures].
      rewrite Hcur, Hq. cbn [app snd].
      split; [done|]. split; [done|]. split; [done|].
      by rewrite announcements_deliver. }
    destruct (submit_all_busy rest _ s0 H1) as (G1 & G2 & G3 & G4).
    cbn zeta. rewrite G1, G2, H2. repeat split.
    erewrite drain_announces; [| exact G1 | exact G2 |].
    + unfold announcements at 1. rewrite G3, G4, H3.
      fold (announcements s0). rewrite H4. cbn.
      by rewrite H2, <- app_assoc.
    + rewrite H2. cbn. rewrite length_map. lia.
Qed.

Lemma request_futures_process_next_request s :
  request_futures (process_next_request s).2 = request_futures s.
Proof.
  rewrite process_next_request_run.
  destruct (current_request s); [done|].
  by destruct (pending_requests s).
Qed.

(** What the loop body does with a [send_response] message that has its
    fields and names the string [k]. *)
Lemma on_message_send_response_run fields k response_data s :
  dict_get "type" fields = Some (JStr "send_response") →
  dict_get "id" fields = Some (JStr k) →
  dict_get "response" fields = Some response_data →
  on_message (JObj fields) s =
    match request_futures s !! k with
    | Some f =>
        if done f then (Returned tt, s)
        else
          let status := get_default (JObj fields) "status_code" (JNum 200) in
          let s1 :=
            add_log (LogCompleted (JStr k) status)
              (set_request_futures (<[k := Result response_data status]>) s) in
          match current_request s with
          | Some cur =>
              let s2 :=
                deliver (reached (websocket_clients s))
                  (CompletedRequest (JStr k) (rq_ip cur) (rq_port cur)
                     (rq_body cur) response_data status) s1 in
              match first_fault (websocket_clients s) with
              | None => process_next_request (set_current_request None s2)
              | Some err => (Raised (exn_of_send_error err), s2)
              end
          | None => (Raised TypeError, s1)
          end
    | None => (Returned tt, s)
    end.
Proof.
  intros Htype Hid Hresp.
  open_on_message; unfold getitem.
  unfold bind at 1. rewrite Htype. cbn [ret json_is_str].
  rewrite bool_decide_eq_true_2 by done.
  unfold bind at 1. rewrite Hid. cbn [ret].
  unfold bind at 1. rewrite Hresp. cbn [ret].
  unfold bind at 1. unfold futures_get, bind at 1, gets, ret.
  destruct (request_futures s !! k) as [f|]; [|by cbn].
  cbn [fmap option_fmap option_map].
  destruct (done f); [done|].
  unfold bind at 1. unfold modify at 1. unfold bind at 1. unfold modify at 1.
  unfold bind at 1. cbn [current_request add_log set_request_futures].
  destruct (current_request s) as [cur|]; [|done].
  unfold bind at 1. cbn [websocket_clients].
  unfold bind at 1. rewrite send_to_each_run.
  cbn [websocket_clients add_log set_request_futures].
  destruct (first_fault (websocket_clients s)); [reflexivity|].
  reflexivity.
Qed.

(** The clear at the end of the resolve path is unconditional: with the
    sends going through, the slot is emptied and the pipeline advanced
    whichever request held the slot. *)
Lemma on_message_clears_any_current fields k response_data cur s :
  dict_get "type" fields = Some (JStr "send_response") →
  dict_get "id" fields = Some (JStr k) →
  dict_get "response" fields = Some response_data →
  request_futures s !! k = Some Pending →
  current_request s = Some cur →
  first_fault (websocket_clients s) = None →
  let status := get_default (JObj fields) "status_code" (JNum 200) in
  on_message (JObj fields) s =
    process_next_request
      (set_current_request None
         (deliver (reached (websocket_clients s))
            (CompletedRequest (JStr k) (rq_ip cur) (rq_port cur)
               (rq_body cur) response_data status)
            (add_log (LogCompleted (JStr k) status)
               (set_request_futures
                  (<[k := Result response_data status]>) s)))).
Proof.
  intros Htype Hid Hresp Hp Hcur Hok.
  rewrite (on_message_send_response_run _ _ _ _ Htype Hid Hresp).
  by rewrite Hp, Hcur, Hok.
Qed.

(** C2, as the code has it. A [send_response] message resolves the
    request it names whenever the future of that request is in the table
    and not done, whatever holds the current slot: the request may be the
    announced one or still wait in the queue.  A message naming a future
    that is absent or done changes nothing. *)
Theorem operator_message_resolves_by_table fields k response_data
    (s : state) :
  dict_get "type" fields = Some (JStr "send_response") →
  dict_get "id" fields = Some (JStr k) →
  dict_get "response" fields = Some response_data →
  let s' := exec (on_message (JObj fields)) s in
  (request_futures s !! k = Some Pending →
     request_futures s' !! k =
       Some (Result response_data
               (get_default (JObj fields) "status_code" (JNum 200)))) ∧
  (request_futures s !! k ≠ Some Pending →
     on_message (JObj fields) s = (Returned tt, s)).
Proof.
  intros Htype Hid Hresp. cbn zeta. unfold exec.
  rewrite (on_message_send_response_run _ _ _ _ Htype Hid Hresp).
  split.
  - intros ->. cbn [done].
    destruct (current_request s) as [cur|];
      [destruct (first_fault (websocket_clients s))|].
    + cbn. by rewrite lookup_insert_eq.
    + rewrite request_futures_process_next_request. cbn.
      by rewrite lookup_insert_eq.
    + cbn. by rewrite lookup_insert_eq.
  - intros Hn. destruct (request_futures s !! k) as [f|]; [|done].
    by destruct f.
Qed.

(** A completion that finds the future absent or done does nothing. *)
Lemma stale_completion_noop c req_id s :
  (∀ f, request_futures s !! req_id = Some f → done f = true) →
  complete c req_id s = (Returned tt, s).
Proof.
  intros Hdone. destruct c as [response_data status|]; step_complete.
  - unfold send_response.
    rewrite (on_message_send_response_run _ req_id response_data) by done.
    destruct (request_futures s !! req_id) as [f|]; [|done].
    by rewrite (Hdone f).
  - unfold cancel, bind, gets. cbn.
    destruct (request_futures s !! req_id) as [f|]; [|done].
    by rewrite (Hdone f).
Qed.

(** A completion of a pending future leaves it done. *)
Lemma complete_pending_done c req_id s :
  request_futures s !! req_id = Some Pending →
  ∃ f, request_futures (exec (complete c req_id) s) !! req_id = Some f ∧
       done f = true.
Proof.
  intros Hp. unfold exec.
  destruct c as [response_data status|]; step_complete.
  - unfold send_response.
    rewrite (on_message_send_response_run _ req_id response_data) by done.
    rewrite Hp. cbn [done].
    exists (Result response_data status). split; [|done].
    destruct (current_request s) as [cur|];
      [destruct (first_fault (websocket_clients s))|].
    + cbn. by rewrite lookup_insert_eq.
    + rewrite request_futures_process_next_request. cbn.
      by rewrite lookup_insert_eq.
    + cbn. by rewrite lookup_insert_eq.
  - unfold cancel, bind, gets. cbn. rewrite Hp. cbn.
    eexists. split; [by rewrite lookup_insert_eq | done].
Qed.

(** C5. Once a resolve or a cancel has completed the future of a
    request, a second resolve or cancel for the same id, in any of the
    four combinations, returns without raising and leaves the whole state
    as it was: the outcome stored in the future, the wire and the slot.
    The same holds in any later state in which the future is done or has
    left the table.  A late round of the disconnect watcher adds its log
    record and nothing else. *)
Theorem completion_at_most_once (c1 c2 : completion) (req_id : string)
    (s : state) :
  request_futures s !! req_id = Some Pending →
  let s1 := exec (complete c1 req_id) s in
  (∃ f, request_futures s1 !! req_id = Some f ∧ done f = true) ∧
  complete c2 req_id s1 = (Returned tt, s1) ∧
  _check_client_disconnect req_id s1 =
    (Returned tt, add_log (LogClientDisconnected req_id) s1) ∧
  (∀ s2, (∀ f, request_futures s2 !! req_id = Some f → done f = true) →
         complete c2 req_id s2 = (Returned tt, s2)).
Proof.
  intros Hp. cbn zeta.
  destruct (complete_pending_done c1 req_id s Hp) as (f & Hf & Hd).
  split; [by exists f|]. split; [|split].
  - apply stale_completion_noop. intros f' Hf'. congruence.
  - unfold _check_client_disconnect, bind, modify.
    change (cancel req_id) with (complete Cancel req_id).
    rewrite stale_completion_noop; [done|].
    intros f' Hf'. cbn in Hf'. congruence.
  - intros s2 Hs2. by apply stale_completion_noop.
Qed.

Lemma on_message_ignored fields t s :
  dict_get "type" fields = Some t → json_is_str t "send_response" = false →
  on_message (JObj fields) s = (Returned tt, s).
Proof.
  intros Htype Hne. open_on_message; unfold getitem.
  unfold bind at 1. rewrite Htype. cbn [ret]. by rewrite Hne.
Qed.

(** C4, as the code has it. A message that is an object with a ["type"]
    other than ["send_response"] is ignored: nothing is logged, the state
    is unchanged and the loop reads the next frame.  A message without
    ["type"], and a [send_response] message without ["id"] or without
    ["response"], raises [KeyError] out of the receive loop, which no
    clause of the [try] catches: the frames behind it are never read and
    the state, with the consumer still in the set, is left as it was. *)
Theorem malformed_operator_message (ws : nat) fields (rest : list frame)
    (s : state) :
  (∀ t, dict_get "type" fields = Some t →
        json_is_str t "send_response" = false →
        serve ws (Text (JObj fields) :: rest) s = serve ws rest s) ∧
  (dict_get "type" fields = None →
     serve ws (Text (JObj fields) :: rest) s =
       (Raised (KeyError (DictKey "type")), s)) ∧
  (dict_get "type" fields = Some (JStr "send_response") →
     dict_get "id" fields = None →
     serve ws (Text (JObj fields) :: rest) s =
       (Raised (KeyError (DictKey "id")), s)) ∧
  (dict_get "type" fields = Some (JStr "send_response") →
     is_Some (dict_get "id" fields) →
     dict_get "response" fields = None →
     serve ws (Text (JObj fields) :: rest) s =
       (Raised (KeyError (DictKey "response")), s)).
Proof.
  repeat split.
  - intros t Htype Hne. open_serve; unfold try_except.
    cbn [receive_loop receive_json]. unfold bind at 1 2 3. unfold ret at 1.
    by rewrite (on_message_ignored _ _ _ Htype Hne).
  - intros Htype. open_serve; unfold try_except.
    cbn [receive_loop receive_json]. unfold bind at 1 2 3. unfold ret at 1.
    open_on_message; unfold getitem. unfold bind at 1.
    by rewrite Htype.
  - intros Htype Hid. open_serve; unfold try_except.
    cbn [receive_loop receive_json]. unfold bind at 1 2 3. unfold ret at 1.
    open_on_message; unfold getitem. unfold bind at 1.
    rewrite Htype. cbn [ret json_is_str].
    rewrite bool_decide_eq_true_2 by done.
    unfold bind at 1. by rewrite Hid.
  - intros Htype [i Hid] Hresp. open_serve; unfold try_except.
    cbn [receive_loop receive_json]. unfold bind at 1 2 3. unfold ret at 1.
    open_on_message; unfold getitem. unfold bind at 1.
    rewrite Htype. cbn [ret json_is_str].
    rewrite bool_decide_eq_true_2 by done.
    unfold bind at 1. rewrite Hid. cbn [ret].
    unfold bind at 1. by rewrite Hresp.
Qed.

Lemma completed_nil message s : completed send_fault [] message s = s.
Proof. destruct s. unfold completed. simpl. by rewrite !app_nil_r. Qed.

Lemma send_completed_run clients message s :
  send_completed send_fault clients message s =
    (Returned tt, completed send_fault clients message s).
Proof.
  revert s. induction clients as [|ws rest IH]; intros s.
  - simpl. by rewrite completed_nil.
  - assert (healthy ws = match send_fault ws with
                         | None => true
                         | Some _ => false
                         end) as Hh by done.
    unfold completed. rewrite !filter_cons.
    cbn [send_completed]. unfold bind at 1. unfold try_except.
    unfold send_json. destruct (send_fault ws) as [err|] eqn:Hws.
    + assert (except_Exception
                (modify (add_log (LogCompletedSendFailed ws)))
                (exn_of_send_error err)
              = Some (modify (add_log (LogCompletedSendFailed ws))))
        as -> by by destruct err.
      repeat case_decide; try (rewrite Hh in *; simpl in *; tauto).
      cbn. rewrite IH. unfold completed. destruct s; cbn.
      by rewrite <- !app_assoc.
    + repeat case_decide; try (rewrite Hh in *; simpl in *; tauto).
      cbn. rewrite IH. unfold completed. destruct s; cbn.
      by rewrite <- !app_assoc.
Qed.

(** The bypass branch: two guarded broadcasts around the forwarding. *)
Lemma handle_completion_bypass_run env request s :
  bypass_enabled s = true →
  ∃ s', handle_completion env request s =
          (Returned (Responded (bypass_response env)), s') ∧
        queues s' = queues s ∧
        request_futures s' = request_futures s ∧
        pending_requests s' = pending_requests s ∧
        current_request s' = current_request s.
Proof.
  intros Hb. open_handle_completion.
  unfold bind at 1. unfold gets at 1. rewrite Hb.
  unfold bind at 1. unfold handle_bypass_request.
  unfold bind at 1. rewrite broadcast_websocket_run.
  unfold bypass_response.
  destruct (forward_request env) as [response_body status|message];
    unfold bind at 1; rewrite broadcast_websocket_run;
    eexists; (split; [reflexivity|]); done.
Qed.

(** The preset branch: the head of the deque is popped, the consoles are
    told, the response is returned. *)
Lemma handle_completion_preset_run env request item rest s :
  bypass_enabled s = false →
  queues s !! client_host request = Some (item :: rest) →
  handle_completion env request s =
    (Returned (Responded
                 (mkJSONResponse (pi_response item) (pi_status_code item))),
     let s1 :=
       add_log (LogAutoResponse (client_host request) (pi_status_code item))
         (set_queues (<[client_host request := rest]>) s) in
     let s2 :=
       set_websocket_clients (filter (λ ws, healthy ws))
         (broadcasted send_fault (websocket_clients s1)
            (QueueEvent "queue_updated"
               (if decide (client_host request = "") then None
                else Some (client_host request))) s1) in
     completed send_fault (websocket_clients s2)
       (CompletedRequest (JStr (uuid_req env)) (client_host request)
          (client_port request) (hr_body request) (pi_response item)
          (pi_status_code item)) s2).
Proof.
  intros Hb Hq. open_handle_completion.
  unfold bind at 1. unfold gets at 1. rewrite Hb.
  unfold bind at 1. unfold check_and_pop, bind at 1, gets at 1.
  rewrite Hq. unfold bind at 1, modify at 1, ret at 1.
  unfold bind at 1, modify at 1.
  unfold bind at 1, broadcast_queue_update.
  rewrite broadcast_websocket_run.
  unfold bind at 1, gets at 1. unfold bind at 1.
  by rewrite send_completed_run.
Qed.

(** The manual branch: nothing but [submit]. *)
Lemma handle_completion_manual_run env request s :
  bypass_enabled s = false →
  queues s !! client_host request = None ∨
    queues s !! client_host request = Some [] →
  handle_completion env request s =
    (submit (uuid_req env) (loop_time env) request;; ret Suspended) s.
Proof.
  intros Hb Hq. open_handle_completion.
  unfold bind at 1. unfold gets at 1. rewrite Hb.
  unfold bind at 1. unfold check_and_pop, bind at 1, gets at 1.
  by destruct Hq as [-> | ->].
Qed.

(** C9. The three strategies in their order of priority.  With bypass
    mode on, the forwarded response is returned and neither the preset
    queues nor the coordinator change.  With bypass mode off and a preset
    response queued for the address of the client, that response is
    returned and the coordinator does not change.  Only with bypass mode
    off and no preset response is the request submitted: its future is
    created and the request enters the pipeline. *)
Theorem handle_completion_priority (env : environment)
    (request : http_request) (s : state) :
  let s' := exec (handle_completion env request) s in
  let out := result (handle_completion env request) s in
  (bypass_enabled s = true →
     out = Returned (Responded (bypass_response env)) ∧
     queues s' = queues s ∧
     request_futures s' = request_futures s ∧
     pending_requests s' = pending_requests s ∧
     current_request s' = current_request s) ∧
  (bypass_enabled s = false →
     ∀ item rest, queues s !! client_host request = Some (item :: rest) →
     out = Returned (Responded (mkJSONResponse (pi_response item)
                                  (pi_status_code item))) ∧
     request_futures s' = request_futures s ∧
     pending_requests s' = pending_requests s ∧
     current_request s' = current_request s) ∧
  (bypass_enabled s = false →
     queues s !! client_host request = None ∨
       queues s !! client_host request = Some [] →
     s' = exec (submit (uuid_req env) (loop_time env) request) s ∧
     (out = Returned Suspended ∨ ∃ e, out = Raised e) ∧
     queues s' = queues s ∧
     request_futures s' = <[uuid_req env := Pending]> (request_futures s) ∧
     pipeline s' =
       pipeline s ++ [request_obj_of (uuid_req env) (loop_time env) request]).
Proof.
  cbn zeta. unfold exec, result. split; [|split].
  - intros Hb.
    by destruct (handle_completion_bypass_run env request s Hb)
      as (s' & -> & ? & ? & ? & ?).
  - intros Hb item rest Hq.
    by rewrite (handle_completion_preset_run env request item rest s Hb Hq).
  - intros Hb Hq.
    rewrite (handle_completion_manual_run env request s Hb Hq).
    assert (∀ (m : M unit) s0,
              (bind m (λ _, ret Suspended) s0).2 = (m s0).2) as Hsnd.
    { intros m s0. unfold bind. by destruct (m s0) as [[[]|e] s']. }
    rewrite !Hsnd. split; [done|]. split.
    { unfold bind. destruct (submit _ _ _ s) as [[[]|e] s']; eauto. }
    rewrite submit_run, process_next_request_run.
    cbn [current_request pending_requests add_log set_pending_requests
         set_request_futures].
    destruct (current_request s) as [cur|] eqn:Hcur.
    { unfold pipeline. cbn. by rewrite Hcur. }
    by destruct (pending_requests s) as [|next q] eqn:Hpq;
      unfold pipeline; cbn; rewrite Hcur, Hpq.
Qed.

(** C10. When a preset response is served, exactly the head of the
    deque of the client's address is removed and the deque of every other
    address is as before; no future is created, nothing enters the
    pending queue and the current slot is unchanged. *)
Theorem preset_served_frame (env : environment) (request : http_request)
    (item : preset_item) (rest : list preset_item) (s : state) :
  bypass_enabled s = false →
  queues s !! client_host request = Some (item :: rest) →
  let s' := exec (handle_completion env request) s in
  result (handle_completion env request) s =
    Returned (Responded (mkJSONResponse (pi_response item)
                           (pi_status_code item))) ∧
  queues s' !! client_host request = Some rest ∧
  (∀ ip, ip ≠ client_host request → queues s' !! ip = queues s !! ip) ∧
  request_futures s' = request_futures s ∧
  pending_requests s' = pending_requests s ∧
  current_request s' = current_request s.
Proof.
  intros Hb Hq. cbn zeta. unfold exec, result.
  rewrite (handle_completion_preset_run env request item rest s Hb Hq).
  cbn. repeat split.
  - by rewrite lookup_insert_eq.
  - intros ip Hne. by rewrite lookup_insert_ne.
Qed.

(** The timeout path of [handle_completion].  Before the timeout a
    pending request stays suspended.  At the timeout the future leaves
    the table and [_cleanup_current_request] runs; the handler returns
    504 unless a send of the advance raises, in which case the exception
    of the [finally] block replaces the response. *)
Lemma handle_completion_resume_timeout req_id elapsed s :
  request_futures s !! req_id = Some Pending →
  ((elapsed < wait_timeout)%Z →
     handle_completion_resume req_id elapsed s = (Returned Suspended, s)) ∧
  ((wait_timeout ≤ elapsed)%Z →
     let s1 :=
       set_request_futures (delete req_id)
         (add_log (LogTimedOut req_id)
            (set_request_futures (alter (λ _, Cancelled) req_id) s)) in
     let timed_out :=
       Responded
         (mkJSONResponse
            (JObj [("error", JStr "Timeout waiting for mock response")])
            (JNum 504)) in
     handle_completion_resume req_id elapsed s =
       match _cleanup_current_request req_id s1 with
       | (Returned _, s2) => (Returned timed_out, s2)
       | (Raised e, s2) => (Raised e, s2)
       end ∧
     request_futures (exec (handle_completion_resume req_id elapsed) s)
       !! req_id = None ∧
     (∀ cur, current_request s = Some cur → rq_id cur = req_id →
        exec (handle_completion_resume req_id elapsed) s =
          exec process_next_request
            (set_current_request None
               (add_log (LogCleaningUp req_id) s1))) ∧
     (first_fault (websocket_clients s) = None →
        result (handle_completion_resume req_id elapsed) s =
          Returned timed_out)).
Proof.
  intros Hp.
  split.
  - intros Hlt. open_handle_completion_resume.
    unfold bind at 1. unfold gets at 1. unfold waiting. rewrite Hp.
    cbn [done negb andb]. by rewrite bool_decide_eq_true_2.
  - intros Hge. cbn zeta.
    assert (handle_completion_resume req_id elapsed s =
            match _cleanup_current_request req_id
                    (set_request_futures (delete req_id)
                       (add_log (LogTimedOut req_id)
                          (set_request_futures
                             (alter (λ _, Cancelled) req_id) s))) with
            | (Returned _, s2) =>
                (Returned
                   (Responded
                      (mkJSONResponse
                         (JObj [("error",
                                 JStr "Timeout waiting for mock response")])
                         (JNum 504))), s2)
            | (Raised e, s2) => (Raised e, s2)
            end) as Hrun.
    { open_handle_completion_resume.
      unfold bind at 1. unfold gets at 1. unfold waiting. rewrite Hp.
      cbn [done negb andb]. rewrite bool_decide_eq_false_2 by lia.
      unfold try_finally, try_except. unfold bind at 1.
      unfold wait_for. unfold bind at 1. unfold gets at 1. rewrite Hp.
      unfold bind at 1. unfold modify at 1. unfold raise at 1.
      unfold bind at 1. unfold modify at 1. unfold ret at 1.
      unfold bind at 1. unfold modify at 1.
      by destruct (_cleanup_current_request req_id _) as [[[]|e'] s2]. }
    split; [exact Hrun|].
    unfold exec, result. rewrite Hrun.
    rewrite _cleanup_current_request_run.
    cbn [current_request set_request_futures add_log].
    split; [|split].
    + destruct (current_request s) as [cur|].
      * destruct (decide (rq_id cur = req_id)).
        -- pose proof (request_futures_process_next_request
                         (set_current_request None
                            (add_log (LogCleaningUp req_id)
                               (set_request_futures (delete req_id)
                                  (add_log (LogTimedOut req_id)
                                     (set_request_futures
                                        (alter (λ _, Cancelled) req_id) s))))))
             as Hf.
           destruct (process_next_request _) as [[[]|e'] s2]; cbn in *;
             rewrite Hf; by rewrite lookup_delete_eq.
        -- cbn. by rewrite lookup_delete_eq.
      * cbn. by rewrite lookup_delete_eq.
    + intros cur Hcur Hid. rewrite Hcur, decide_True by done.
      by destruct (process_next_request _) as [[[]|e'] s2].
    + intros Hok. destruct (current_request s) as [cur|]; [|done].
      destruct (decide (rq_id cur = req_id)); [|done].
      rewrite process_next_request_run. cbn.
      destruct (pending_requests s); [done|]. by rewrite Hok.
Qed.

End Properties.

(** ** The properties on the scenarios *)

(** C1. The operator message names [B] while [A] holds the slot: the
    handler of [websocket_endpoint] completes the future of [B], then sets
    [current_request = None] without comparing ids and advances.  [A] is
    thrown out of the slot, is not in the queue either, and its future is
    still pending; [_cleanup_current_request] would have compared the
    ids. *)
Theorem resolve_clears_slot_of_other_request :
  let s := two_submitted in
  let s' :=
    exec (on_message all_good (send_response "B" (JStr "ok") (JNum 200))) s in
  rq_id <$> current_request s = Some "A" ∧
  rq_id <$> pending_requests s = ["B"] ∧
  request_futures s !! "A" = Some Pending ∧
  request_futures s !! "B" = Some Pending ∧
  rq_id <$> current_request s' = Some "B" ∧
  pending_requests s' = [] ∧
  request_futures s' !! "A" = Some Pending ∧
  request_futures s' !! "B" = Some (Result (JStr "ok") (JNum 200)) ∧
  _cleanup_current_request all_good "B" s = (Returned tt, s).
Proof. vm_compute. by repeat split. Qed.

(** C2 fails as stated: a request that waits in the queue, never
    announced, is resolved by an operator message. *)
Lemma operator_resolves_queued_request :
  ¬ (∀ (send_fault : nat → option send_error) (msg : json) (k : string)
       (s : state),
       request_futures s !! k = Some Pending →
       (∃ d c, request_futures (exec (on_message send_fault msg) s) !! k
                 = Some (Result d c)) →
       ∃ cur, current_request s = Some cur ∧ rq_id cur = k).
Proof.
  intros Hclaim.
  destruct (Hclaim all_good (send_response "B" (JStr "ok") (JNum 200)) "B"
              two_submitted) as (cur & Hcur & Hid).
  - by vm_compute.
  - exists (JStr "ok"), (JNum 200). by vm_compute.
  - vm_compute in Hcur. injection Hcur as <-. by vm_compute in Hid.
Qed.

Lemma operator_message_resolves_by_table_witness :
  let fields := [("type", JStr "send_response"); ("id", JStr "B");
                 ("response", JStr "ok")] in
  let s' := exec (on_message all_good (JObj fields)) two_submitted in
  dict_get "type" fields = Some (JStr "send_response") ∧
  dict_get "id" fields = Some (JStr "B") ∧
  dict_get "response" fields = Some (JStr "ok") ∧
  (request_futures two_submitted !! "B" = Some Pending →
     request_futures s' !! "B" =
       Some (Result (JStr "ok")
               (get_default (JObj fields) "status_code" (JNum 200)))) ∧
  (request_futures two_submitted !! "B" ≠ Some Pending →
     on_message all_good (JObj fields) two_submitted =
       (Returned tt, two_submitted)).
Proof.
  cbn zeta. split; [reflexivity|]. split; [reflexivity|].
  split; [reflexivity|].
  apply (operator_message_resolves_by_table all_good
           [("type", JStr "send_response"); ("id", JStr "B");
            ("response", JStr "ok")] "B" (JStr "ok") two_submitted);
    reflexivity.
Defined.

(** C3. Console 1 is dead and still in the set, console 2 is healthy.
    The loop of [process_next_request] (the announcement of [B] when [A]
    finishes) and the loop of [websocket_endpoint] (the completion of [A])
    raise at console 1: console 2 receives nothing and console 1 stays in
    the set.  [broadcast_websocket] on the same state delivers to console
    2 and removes console 1. *)
Theorem unguarded_send_loops_abort :
  let s := two_consoles_two_submitted in
  let announce := _cleanup_current_request console_1_dead "A" s in
  let resolve :=
    on_message console_1_dead (send_response "A" (JStr "ok") (JNum 200)) s in
  let guarded :=
    broadcast_websocket console_1_dead (QueueEvent "queue_updated" None) s in
  websocket_clients s = [1; 2] ∧
  announce.1 = Raised RuntimeError ∧
  rq_id <$> current_request announce.2 = Some "B" ∧
  received 2 announce.2 = received 2 s ∧
  websocket_clients announce.2 = [1; 2] ∧
  resolve.1 = Raised RuntimeError ∧
  request_futures resolve.2 !! "A" = Some (Result (JStr "ok") (JNum 200)) ∧
  received 2 resolve.2 = received 2 s ∧
  websocket_clients resolve.2 = [1; 2] ∧
  guarded.1 = Returned tt ∧
  received 2 guarded.2 = received 2 s ++ [QueueEvent "queue_updated" None] ∧
  websocket_clients guarded.2 = [2].
Proof. vm_compute. by repeat split. Qed.

(** C4 fails as stated: a [send_response] message without ["id"] ends
    the receive loop with [KeyError].  The well-formed message behind it
    is never read, so the future of [A] stays pending, and nothing is
    logged. *)
Lemma malformed_message_ends_receive_loop :
  let frames :=
    [Text (JObj [("type", JStr "send_response"); ("response", JStr "ok")]);
     Text (send_response "A" (JStr "ok") (JNum 200))] in
  let r := websocket_endpoint all_good 3 frames two_submitted in
  r.1 = Raised (KeyError (DictKey "id")) ∧
  request_futures r.2 !! "A" = Some Pending ∧
  log r.2 = log two_submitted ∧
  (websocket_endpoint all_good 3 (tail frames) two_submitted).1
    = Returned Listening.
Proof. vm_compute. by repeat split. Qed.

Lemma malformed_operator_message_witness :
  let ping := [("type", JStr "ping")] in
  let no_type := [("id", JStr "A"); ("response", JStr "ok")] in
  let no_id := [("type", JStr "send_response"); ("response", JStr "ok")] in
  let no_response := [("type", JStr "send_response"); ("id", JStr "A")] in
  let s := two_submitted in
  serve all_good 3 [Text (JObj ping); Close] s = serve all_good 3 [Close] s ∧
  serve all_good 3 [Text (JObj no_type); Close] s =
    (Raised (KeyError (DictKey "type")), s) ∧
  serve all_good 3 [Text (JObj no_id); Close] s =
    (Raised (KeyError (DictKey "id")), s) ∧
  serve all_good 3 [Text (JObj no_response); Close] s =
    (Raised (KeyError (DictKey "response")), s).
Proof.
  cbn zeta. split; [|split; [|split]].
  - apply (malformed_operator_message all_good 3 [("type", JStr "ping")]
             [Close] two_submitted) with (t := JStr "ping"); reflexivity.
  - apply (malformed_operator_message all_good 3
             [("id", JStr "A"); ("response", JStr "ok")] [Close]
             two_submitted). reflexivity.
  - apply (malformed_operator_message all_good 3
             [("type", JStr "send_response"); ("response", JStr "ok")]
             [Close] two_submitted); reflexivity.
  - apply (malformed_operator_message all_good 3
             [("type", JStr "send_response"); ("id", JStr "A")]
             [Close] two_submitted); [reflexivity | | reflexivity].
    by exists (JStr "A").
Defined.

Lemma completion_at_most_once_witness :
  let s1 := exec (complete all_good (Resolve (JStr "ok") (JNum 200)) "A")
              two_submitted in
  request_futures two_submitted !! "A" = Some Pending ∧
  (∃ f, request_futures s1 !! "A" = Some f ∧ done f = true) ∧
  complete all_good Cancel "A" s1 = (Returned tt, s1) ∧
  _check_client_disconnect "A" s1 =
    (Returned tt, add_log (LogClientDisconnected "A") s1) ∧
  (∀ s2, (∀ f, request_futures s2 !! "A" = Some f → done f = true) →
         complete all_good Cancel "A" s2 = (Returned tt, s2)).
Proof.
  cbn zeta. split; [reflexivity|].
  apply (completion_at_most_once all_good (Resolve (JStr "ok") (JNum 200))
           Cancel "A" two_submitted).
  reflexivity.
Defined.

Lemma announcements_fifo_witness :
  let subs : list submission :=
    [("A", "0.0", request_from "10.0.0.1");
     ("B", "0.1", request_from "10.0.0.2");
     ("C", "0.2", request_from "10.0.0.1")] in
  let s := exec (websocket_endpoint all_good 1 []) initial_state in
  let s1 := submit_all all_good subs s in
  current_request s = None ∧ pending_requests s = [] ∧
  current_request s1 = head (map submitted subs) ∧
  pending_requests s1 = tail (map submitted subs) ∧
  announcements (drain all_good (length subs) s1) =
    announcements s ++
    flat_map (λ r, map (λ ws, (ws, r))
                     (reached all_good (websocket_clients s)))
      (map submitted subs).
Proof.
  cbn zeta. split; [reflexivity|]. split; [reflexivity|].
  apply (announcements_fifo all_good
           [("A", "0.0", request_from "10.0.0.1");
            ("B", "0.1", request_from "10.0.0.2");
            ("C", "0.2", request_from "10.0.0.1")]
           (exec (websocket_endpoint all_good 1 []) initial_state));
    reflexivity.
Defined.

Lemma process_next_request_single_slot_witness :
  let busy := two_submitted in
  let free := set_current_request None two_submitted in
  current_request busy ≠ None ∧
  process_next_request all_good busy = (Returned tt, busy) ∧
  current_request free = None ∧
  rq_id <$> pending_requests free = ["B"] ∧
  rq_id <$> current_request (exec (process_next_request all_good) free)
    = Some "B" ∧
  pending_requests (exec (process_next_request all_good) free) = [].
Proof.
  cbn zeta.
  destruct (process_next_request_single_slot all_good two_submitted)
    as (Hnoop & _).
  destruct (process_next_request_single_slot all_good
              (set_current_request None two_submitted))
    as (_ & Hhead & _).
  assert (current_request two_submitted ≠ None) as Hbusy by (by vm_compute).
  split; [exact Hbusy|]. split; [exact (Hnoop (or_introl Hbusy))|].
  split; [reflexivity|]. split; [reflexivity|].
  rewrite (Hhead (request_obj_of "B" "0.0" (request_from "10.0.0.2")) []
             eq_refl eq_refl).
  split; reflexivity.
Defined.

(** C8. [A] holds the slot and times out while console 1 is dead:
    the future of [A] leaves the table, the slot is cleared and [B] takes
    it, but the send of the announcement raises inside the [finally]
    block and the exception replaces the 504 response the [except] clause
    had returned.  With healthy consoles the caller gets the 504. *)
Theorem timeout_with_dead_console :
  let s := two_consoles_two_submitted in
  let r := handle_completion_resume console_1_dead "A" 300 s in
  rq_id <$> current_request s = Some "A" ∧
  request_futures s !! "A" = Some Pending ∧
  handle_completion_resume console_1_dead "A" 299 s = (Returned Suspended, s) ∧
  r.1 = Raised RuntimeError ∧
  request_futures r.2 !! "A" = None ∧
  rq_id <$> current_request r.2 = Some "B" ∧
  result (handle_completion_resume all_good "A" 300) s =
    Returned
      (Responded
         (mkJSONResponse
            (JObj [("error", JStr "Timeout waiting for mock response")])
            (JNum 504))).
Proof. vm_compute. by repeat split. Qed.

Lemma handle_completion_priority_witness :
  let request := request_from "10.0.0.1" in
  let env := env_for "R" in
  let bypassing :=
    State [] [] None ∅ (queues two_presets) true [] [] in
  bypass_enabled bypassing = true ∧
  result (handle_completion all_good env request) bypassing =
    Returned (Responded (bypass_response env)) ∧
  queues (exec (handle_completion all_good env request) bypassing) =
    queues bypassing ∧
  bypass_enabled two_presets = false ∧
  result (handle_completion all_good env request) two_presets =
    Returned (Responded (mkJSONResponse (JStr "first") (JNum 200))) ∧
  pending_requests (exec (handle_completion all_good env request) two_presets)
    = pending_requests two_presets ∧
  (queues initial_state !! client_host request = None ∨
   queues initial_state !! client_host request = Some []) ∧
  exec (handle_completion all_good env request) initial_state =
    exec (submit all_good (uuid_req env) (loop_time env) request)
      initial_state.
Proof.
  cbn zeta.
  destruct (handle_completion_priority all_good (env_for "R")
              (request_from "10.0.0.1")
              (State [] [] None ∅ (queues two_presets) true [] []))
    as (Hbypass & _).
  destruct (handle_completion_priority all_good (env_for "R")
              (request_from "10.0.0.1") two_presets) as (_ & Hpreset & _).
  destruct (handle_completion_priority all_good (env_for "R")
              (request_from "10.0.0.1") initial_state) as (_ & _ & Hmanual).
  destruct (Hbypass eq_refl) as (B1 & B2 & _).
  destruct (Hpreset eq_refl
              (PresetItem "p1" (JStr "first") (JNum 200) 0)
              [PresetItem "p2" (JStr "second") (JNum 201) 0] eq_refl)
    as (P1 & _ & P2 & _).
  assert (queues initial_state !! client_host (request_from "10.0.0.1") = None
          ∨ queues initial_state !! client_host (request_from "10.0.0.1")
            = Some []) as Hnone by (left; reflexivity).
  destruct (Hmanual eq_refl Hnone) as (M1 & _).
  repeat split; assumption.
Defined.

Lemma preset_served_frame_witness :
  let request := request_from "10.0.0.1" in
  let env := env_for "R" in
  let s' := exec (handle_completion all_good env request) two_presets in
  bypass_enabled two_presets = false ∧
  queues two_presets !! "10.0.0.1" =
    Some [PresetItem "p1" (JStr "first") (JNum 200) 0;
          PresetItem "p2" (JStr "second") (JNum 201) 0] ∧
  result (handle_completion all_good env request) two_presets =
    Returned (Responded (mkJSONResponse (JStr "first") (JNum 200))) ∧
  queues s' !! "10.0.0.1" =
    Some [PresetItem "p2" (JStr "second") (JNum 201) 0] ∧
  (∀ ip, ip ≠ "10.0.0.1" → queues s' !! ip = queues two_presets !! ip) ∧
  request_futures s' = request_futures two_presets ∧
  pending_requests s' = pending_requests two_presets ∧
  current_request s' = current_request two_presets.
Proof.
  cbn zeta. split; [reflexivity|]. split; [reflexivity|].
  apply (preset_served_frame all_good (env_for "R")
           (request_from "10.0.0.1")
           (PresetItem "p1" (JStr "first") (JNum 200) 0)
           [PresetItem "p2" (JStr "second") (JNum 201) 0] two_presets);
    reflexivity.
Defined.

(** ** The preset queue manager *)

Lemma queue_of_add_response response_id created_at ip response status ip' s :
  queue_of ip' (exec (add_response response_id created_at ip response status) s) =
    if decide (ip = ip') then
      queue_of ip s ++ [PresetItem response_id response status created_at]
    else queue_of ip' s.
Proof.
  unfold queue_of, exec, add_response, bind, modify, ret. cbn.
  destruct (decide (ip = ip')) as [->|Hne].
  - by rewrite lookup_insert_eq.
  - by rewrite lookup_insert_ne.
Qed.

Lemma queue_of_add_all ip items : ∀ s ip',
  queue_of ip' (exec (add_all ip items) s) =
    if decide (ip = ip') then queue_of ip s ++ items else queue_of ip' s.
Proof.
  induction items as [|[i r c t] rest IH]; intros s ip'.
  - cbn. destruct (decide (ip = ip')) as [->|]; [by rewrite app_nil_r|done].
  - change (exec (add_all ip (PresetItem i r c t :: rest)) s)
      with (exec (add_all ip rest) (exec (add_response i t ip r c) s)).
    rewrite IH, !queue_of_add_response.
    destruct (decide (ip = ip')) as [->|]; [|done].
    rewrite decide_True by done. by rewrite <- app_assoc.
Qed.

Lemma check_and_pop_run ip s :
  check_and_pop ip s =
    match queue_of ip s with
    | [] => (Returned None, s)
    | item :: rest =>
        (Returned (Some (served item)), set_queues (<[ip := rest]>) s)
    end.
Proof.
  unfold check_and_pop, bind, gets, queue_of.
  by destruct (queues s !! ip) as [[|item rest]|].
Qed.

Lemma queue_of_insert ip q ip' s :
  queue_of ip' (set_queues (<[ip := q]>) s) =
    if decide (ip = ip') then q else queue_of ip' s.
Proof.
  unfold queue_of. cbn. destruct (decide (ip = ip')) as [->|Hne].
  - by rewrite lookup_insert_eq.
  - by rewrite lookup_insert_ne.
Qed.

Lemma pop_n_run n ip : ∀ s,
  result (pop_n n ip) s =
    Returned (map (λ item, Some (served item)) (take n (queue_of ip s)) ++
              replicate (n - length (queue_of ip s)) None) ∧
  ∀ ip', queue_of ip' (exec (pop_n n ip) s) =
           if decide (ip = ip') then drop n (queue_of ip s)
           else queue_of ip' s.
Proof.
  induction n as [|n IH]; intros s.
  - split; [done|]. intros ip'. cbn. by destruct (decide (ip = ip')) as [->|].
  - assert (pop_n (S n) ip s =
            match check_and_pop ip s with
            | (Returned answer, s1) =>
                match pop_n n ip s1 with
                | (Returned answers, s2) => (Returned (answer :: answers), s2)
                | (Raised e, s2) => (Raised e, s2)
                end
            | (Raised e, s1) => (Raised e, s1)
            end) as Hstep by done.
    unfold result, exec. rewrite Hstep, check_and_pop_run.
    destruct (queue_of ip s) as [|item rest] eqn:Hq.
    + destruct (IH s) as [Hr Hs]. unfold result, exec in Hr, Hs.
      rewrite Hq in Hr, Hs.
      destruct (pop_n n ip s) as [out s'] eqn:Hp.
      cbn [fst snd] in Hr, Hs. subst out. cbn [fst snd].
      split.
      * rewrite take_nil. cbn. by rewrite Nat.sub_0_r.
      * intros ip'. rewrite (Hs ip').
        destruct (decide (ip = ip')) as [<-|]; [|done].
        by rewrite drop_nil.
    + destruct (IH (set_queues (<[ip:=rest]>) s)) as [Hr Hs].
      unfold result, exec in Hr, Hs.
      rewrite (queue_of_insert ip rest ip), decide_True in Hr, Hs by done.
      destruct (pop_n n ip (set_queues <[ip:=rest]> s)) as [out s'] eqn:Hp.
      cbn [fst snd] in Hr, Hs. subst out. cbn [fst snd].
      split; [done|].
      intros ip'. rewrite (Hs ip').
      destruct (decide (ip = ip')) as [|Hne]; [done|].
      by rewrite queue_of_insert, decide_False.
Qed.

(** X1. The preset queue of an address is first in, first out: after
    responses are added, [n] calls of [check_and_pop] answer with the
    items that were already queued and then the added ones, in that
    order, and with [None] once the queue is used up; the queue of every
    other address is as it was. *)
Theorem preset_queue_fifo (ip : string) (items : list preset_item) (n : nat)
    (s : state) :
  let q := queue_of ip s ++ items in
  let s1 := exec (add_all ip items) s in
  result (pop_n n ip) s1 =
    Returned (map (λ item, Some (served item)) (take n q) ++
              replicate (n - length q) None) ∧
  queue_of ip (exec (pop_n n ip) s1) = drop n q ∧
  ∀ ip', ip' ≠ ip →
         queue_of ip' (exec (pop_n n ip) s1) = queue_of ip' s.
Proof.
  cbn zeta. destruct (pop_n_run n ip (exec (add_all ip items) s)) as [Hr Hs].
  rewrite Hr. rewrite (queue_of_add_all ip items s ip), decide_True by done.
  split; [done|]. split.
  - rewrite (Hs ip), decide_True by done.
    by rewrite (queue_of_add_all ip items s ip), decide_True.
  - intros ip' Hne. rewrite (Hs ip'), decide_False by done.
    by rewrite (queue_of_add_all ip items s ip'), decide_False.
Qed.

Lemma filter_keeps_all {A} (P : A → Prop) `{∀ x, Decision (P x)} (l : list A) :
  ¬ (length (filter P l) < length l)%nat → filter P l = l.
Proof.
  induction l as [|x l IH]; [done|]. intros Hlen.
  destruct (decide (P x)) as [HP|HP].
  - rewrite filter_cons_True in * by done. cbn in Hlen.
    f_equal. apply IH. lia.
  - exfalso. apply Hlen. apply (length_filter_lt P (x :: l) x); [left|done].
Qed.

Lemma filter_drops_some {A} (P : A → Prop) `{∀ x, Decision (P x)} (l : list A) :
  (length (filter P l) < length l)%nat ↔ Exists (λ x, ¬ P x) l.
Proof.
  split.
  - intros Hlt. apply Exists_exists.
    destruct (decide (Forall P l)) as [Hall|Hn].
    + assert (filter P l = l) as Heq.
      { clear Hlt. induction l as [|x l IH]; [done|].
        inversion Hall; subst. rewrite filter_cons_True by done.
        f_equal. by apply IH. }
      rewrite Heq in Hlt. lia.
    + apply not_Forall_Exists in Hn; [|intros x; apply _].
      by apply Exists_exists in Hn.
  - intros (x & Hin & Hx)%Exists_exists.
    by apply (length_filter_lt P l x).
Qed.

(** X2. [delete_response] answers [True] exactly when some item of the
    address carries the id; afterwards no item carries it, the other
    items keep their order, and the queues of the other addresses are as
    they were.  When it answers [False] the state is unchanged. *)
Theorem delete_response_removes_by_id (ip response_id : string) (s : state) :
  let r := delete_response ip response_id s in
  r.1 = Returned (bool_decide
                    (Exists (λ item, pi_id item = response_id)
                       (queue_of ip s))) ∧
  queue_of ip r.2 =
    filter (λ item, pi_id item ≠ response_id) (queue_of ip s) ∧
  (∀ ip', ip' ≠ ip → queue_of ip' r.2 = queue_of ip' s) ∧
  (r.1 = Returned false → r.2 = s).
Proof.
  cbn zeta. unfold delete_response, bind, gets, queue_of.
  destruct (queues s !! ip) as [q|] eqn:Hq; cbn.
  - split; [|split; [|split]].
    + f_equal. apply bool_decide_ext. rewrite filter_drops_some.
      rewrite !Exists_exists. split; intros (item & Hin & Hid);
        exists item; (split; [done|]).
      * by destruct (decide (pi_id item = response_id)).
      * by intros Hne.
    + by rewrite lookup_insert_eq.
    + intros ip' Hne. by rewrite lookup_insert_ne.
    + intros Hfalse. injection Hfalse as Hfalse.
      apply bool_decide_eq_false in Hfalse.
      rewrite (filter_keeps_all _ q Hfalse).
      destruct s as [cl pend cur fut qs byp w lg]. cbn in *.
      unfold set_queues. cbn. by rewrite insert_id.
  - rewrite Hq. by repeat split.
Qed.

Lemma delete_response_removes_by_id_witness :
  let r := delete_response "10.0.0.1" "p1" two_presets in
  let r' := delete_response "10.0.0.1" "zz" two_presets in
  r.1 = Returned true ∧
  queue_of "10.0.0.1" r.2 = [PresetItem "p2" (JStr "second") (JNum 201) 0] ∧
  r'.1 = Returned false ∧
  r'.2 = two_presets.
Proof.
  cbn zeta.
  destruct (delete_response_removes_by_id "10.0.0.1" "p1" two_presets)
    as (R1 & R2 & _).
  destruct (delete_response_removes_by_id "10.0.0.1" "zz" two_presets)
    as (N1 & _ & _ & N4).
  split; [rewrite R1; reflexivity|]. split; [rewrite R2; reflexivity|].
  assert ((delete_response "10.0.0.1" "zz" two_presets).1 = Returned false)
    as Hfalse by (rewrite N1; reflexivity).
  split; [exact Hfalse|]. exact (N4 Hfalse).
Defined.

(** X3. A queue that has been used up still exists.  On an address
    without a queue, adding one response and serving it leaves the empty
    deque in the table: [clear_queue] then answers [True] where it
    answered [False] before the address was used, [get_all_queues] lists
    the address, and only [delete_queue] brings back the original
    state. *)
Theorem consumed_queue_still_exists (ip response_id : string) (created_at : Z)
    (response status : json) (s : state) :
  queues s !! ip = None →
  let s1 := exec (add_response response_id created_at ip response status) s in
  let s2 := exec (check_and_pop ip) s1 in
  result (check_and_pop ip) s1 = Returned (Some (response, status)) ∧
  check_and_pop ip s2 = (Returned None, s2) ∧
  result get_all_queues s2 = Returned (<[ip := []]> (queues s)) ∧
  result (clear_queue ip) s = Returned false ∧
  clear_queue ip s2 = (Returned true, s2) ∧
  delete_queue ip s2 = (Returned true, s).
Proof.
  intros Hq. cbn zeta.
  unfold exec, result, add_response, check_and_pop, get_all_queues,
    clear_queue, delete_queue, bind, gets, modify, ret, set_queues.
  destruct s as [cl pend cur fut qs byp w lg]. cbn in *.
  rewrite Hq. cbn. rewrite !lookup_insert_eq. cbn.
  rewrite !lookup_insert_eq. cbn.
  rewrite !insert_insert_eq, delete_insert_eq, delete_id by done.
  by repeat split.
Qed.

Lemma consumed_queue_still_exists_witness :
  let s1 := exec (add_response "p1" 0 "10.0.0.1" (JStr "hello") (JNum 200))
              initial_state in
  let s2 := exec (check_and_pop "10.0.0.1") s1 in
  queues initial_state !! "10.0.0.1" = None ∧
  result (check_and_pop "10.0.0.1") s1
    = Returned (Some (JStr "hello", JNum 200)) ∧
  check_and_pop "10.0.0.1" s2 = (Returned None, s2) ∧
  result get_all_queues s2
    = Returned (<["10.0.0.1" := []]> (queues initial_state)) ∧
  result (clear_queue "10.0.0.1") initial_state = Returned false ∧
  clear_queue "10.0.0.1" s2 = (Returned true, s2) ∧
  delete_queue "10.0.0.1" s2 = (Returned true, initial_state).
Proof.
  cbn zeta. split; [reflexivity|].
  apply (consumed_queue_still_exists "10.0.0.1" "p1" 0 (JStr "hello")
           (JNum 200) initial_state).
  reflexivity.
Defined.

(** X4. [clear_queue] empties the deque and keeps its key, so it
    succeeds again on the cleared queue; [delete_queue] removes the key,
    so a second [delete_queue], and a [clear_queue] after it, answer
    [False] and change nothing. *)
Theorem clear_keeps_key_delete_removes_it (ip : string) (s : state) :
  is_Some (queues s !! ip) →
  let c := exec (clear_queue ip) s in
  let d := exec (delete_queue ip) s in
  result (clear_queue ip) s = Returned true ∧
  queues c = <[ip := []]> (queues s) ∧
  clear_queue ip c = (Returned true, c) ∧
  result (delete_queue ip) s = Returned true ∧
  queues d = delete ip (queues s) ∧
  delete_queue ip d = (Returned false, d) ∧
  clear_queue ip d = (Returned false, d).
Proof.
  intros [q Hq]. cbn zeta.
  unfold exec, result, clear_queue, delete_queue, bind, gets, modify, ret,
    set_queues.
  destruct s as [cl pend cur fut qs byp w lg]. cbn in *.
  rewrite Hq. cbn. rewrite lookup_insert_eq, lookup_delete_eq. cbn.
  rewrite insert_insert_eq. by repeat split.
Qed.

Lemma clear_keeps_key_delete_removes_it_witness :
  let c := exec (clear_queue "10.0.0.1") two_presets in
  let d := exec (delete_queue "10.0.0.1") two_presets in
  is_Some (queues two_presets !! "10.0.0.1") ∧
  result (clear_queue "10.0.0.1") two_presets = Returned true ∧
  queues c = <["10.0.0.1" := []]> (queues two_presets) ∧
  clear_queue "10.0.0.1" c = (Returned true, c) ∧
  result (delete_queue "10.0.0.1") two_presets = Returned true ∧
  queues d = delete "10.0.0.1" (queues two_presets) ∧
  delete_queue "10.0.0.1" d = (Returned false, d) ∧
  clear_queue "10.0.0.1" d = (Returned false, d).
Proof.
  cbn zeta.
  assert (is_Some (queues two_presets !! "10.0.0.1")) as Hsome
    by (eexists; reflexivity).
  split; [exact Hsome|].
  exact (clear_keeps_key_delete_removes_it "10.0.0.1" two_presets Hsome).
Defined.

(** ** Order of service on every run *)

Section Preservation.

Variable I : state → Prop.

Lemma preserves_ret {A} (a : A) : preserves I (ret a).
Proof. by intros s. Qed.

Lemma preserves_raise {A} (e : exn) : preserves I (raise (A := A) e).
Proof. by intros s. Qed.

Lemma preserves_gets {A} (f : state → A) : preserves I (gets f).
Proof. by intros s. Qed.

Lemma preserves_modify (f : state → state) :
  (∀ s, I s → I (f s)) → preserves I (modify f).
Proof. intros Hf s. apply Hf. Qed.

Lemma preserves_bind {A B} (m : M A) (k : A → M B) :
  preserves I m → (∀ a, preserves I (k a)) → preserves I (bind m k).
Proof.
  intros Hm Hk s Hs. unfold bind. specialize (Hm s Hs).
  destruct (m s) as [[a|e] s']; [by apply Hk | done].
Qed.

Lemma preserves_try_except {A} (m : M A) (handler : exn → option (M A)) :
  preserves I m → (∀ e h, handler e = Some h → preserves I h) →
  preserves I (try_except m handler).
Proof.
  intros Hm Hh s Hs. unfold try_except. specialize (Hm s Hs).
  destruct (m s) as [[a|e] s']; [done|].
  destruct (handler e) as [h|] eqn:He; [by apply (Hh e h)|done].
Qed.

Lemma preserves_try_finally {A} (m : M A) (cleanup : M unit) :
  preserves I m → preserves I cleanup → preserves I (try_finally m cleanup).
Proof.
  intros Hm Hc s Hs. unfold try_finally. specialize (Hm s Hs).
  destruct (m s) as [r s']. specialize (Hc s' Hm).
  by destruct (cleanup s') as [[[]|e] s''].
Qed.

End Preservation.

Section Order.

Variable send_fault : nat → option send_error.

Lemma served_in_order_frame (s s' : state) :
  pending_requests s' = pending_requests s → log s' = log s →
  served_in_order s → served_in_order s'.
Proof.
  unfold served_in_order, processed_ids, queued_ids. by intros -> ->.
Qed.

Lemma served_in_order_add_log entry s :
  match entry with
  | LogQueued _ _ _ | LogProcessing _ => False
  | _ => True
  end →
  served_in_order s → served_in_order (add_log entry s).
Proof.
  unfold served_in_order, processed_ids, queued_ids. cbn.
  rewrite !omap_app. intros Hentry Hs.
  destruct entry; try done; cbn; by rewrite !app_nil_r.
Qed.

(** Steps that close a goal [preserves served_in_order m] by the shape
    of [m]. *)
Ltac keeps_frame :=
  let s := fresh "s" in let Hs := fresh "Hs" in
  intros s Hs;
  first [ by apply (served_in_order_frame s)
        | by apply served_in_order_add_log ].

Create HintDb preserving.

Ltac keeps :=
  repeat first
    [ solve [auto with preserving]
    | apply preserves_ret
    | apply preserves_raise
    | apply preserves_gets
    | apply preserves_modify; keeps_frame
    | apply preserves_bind; [|intros ?]
    | apply preserves_try_finally
    | apply preserves_try_except;
        [| let e := fresh "e" in
           let h := fresh "h" in
           let He := fresh "He" in
           intros e h He; destruct e; cbn in He; simplify_eq ]
    | match goal with
      | |- preserves _ (match ?x with _ => _ end) => destruct x
      end ].

Lemma keeps_send_json ws message :
  preserves served_in_order (send_json send_fault ws message).
Proof.
  intros s Hs. unfold send_json. destruct (send_fault ws); [done|].
  by apply (served_in_order_frame s).
Qed.
Hint Resolve keeps_send_json : preserving.

Lemma keeps_send_to_each clients message :
  preserves served_in_order (send_to_each send_fault clients message).
Proof. induction clients as [|ws rest IH]; cbn [send_to_each]; keeps. Qed.
Hint Resolve keeps_send_to_each : preserving.

Lemma keeps_broadcast_loop clients message : ∀ disconnected,
  preserves served_in_order
    (broadcast_loop send_fault clients message disconnected).
Proof.
  induction clients as [|ws rest IH]; intros disconnected;
    cbn [broadcast_loop]; keeps.
Qed.
Hint Resolve keeps_broadcast_loop : preserving.

Lemma keeps_broadcast_websocket message :
  preserves served_in_order (broadcast_websocket send_fault message).
Proof. unfold broadcast_websocket. keeps. Qed.
Hint Resolve keeps_broadcast_websocket : preserving.

Lemma keeps_send_completed clients message :
  preserves served_in_order (send_completed send_fault clients message).
Proof.
  induction clients as [|ws rest IH]; cbn [send_completed]; keeps.
Qed.
Hint Resolve keeps_send_completed : preserving.

Lemma keeps_process_next_request :
  preserves served_in_order (process_next_request send_fault).
Proof.
  intros s Hs. rewrite process_next_request_run.
  destruct (current_request s) as [cur|]; [done|].
  destruct (pending_requests s) as [|next rest] eqn:Hq; [done|].
  revert Hs. unfold served_in_order, processed_ids, queued_ids. cbn.
  rewrite Hq, !omap_app. cbn. intros <-. by rewrite app_nil_r, <- app_assoc.
Qed.
Hint Resolve keeps_process_next_request : preserving.

Lemma keeps_cleanup_current_request req_id :
  preserves served_in_order (_cleanup_current_request send_fault req_id).
Proof. unfold _cleanup_current_request. keeps. Qed.
Hint Resolve keeps_cleanup_current_request : preserving.

Lemma keeps_check_client_disconnect req_id :
  preserves served_in_order (_check_client_disconnect req_id).
Proof. unfold _check_client_disconnect, cancel. keeps. Qed.
Hint Resolve keeps_check_client_disconnect : preserving.

Lemma keeps_on_message msg :
  preserves served_in_order (on_message send_fault msg).
Proof. unfold on_message, getitem, futures_get. keeps. Qed.
Hint Resolve keeps_on_message : preserving.

Lemma keeps_receive_loop frames :
  preserves served_in_order (receive_loop send_fault frames).
Proof.
  induction frames as [|f rest IH]; cbn [receive_loop];
    unfold receive_json; keeps.
Qed.
Hint Resolve keeps_receive_loop : preserving.

Lemma keeps_serve ws frames :
  preserves served_in_order (serve send_fault ws frames).
Proof. unfold serve, clients_remove. keeps. Qed.
Hint Resolve keeps_serve : preserving.

Lemma keeps_websocket_endpoint ws frames :
  preserves served_in_order (websocket_endpoint send_fault ws frames).
Proof. unfold websocket_endpoint. keeps. Qed.
Hint Resolve keeps_websocket_endpoint : preserving.

Lemma keeps_submit req_id timestamp request :
  preserves served_in_order (submit send_fault req_id timestamp request).
Proof.
  intros s Hs. rewrite submit_run. apply keeps_process_next_request.
  revert Hs. unfold served_in_order, processed_ids, queued_ids. cbn.
  rewrite !omap_app, map_app. cbn. intros <-.
  by rewrite app_nil_r, <- app_assoc.
Qed.
Hint Resolve keeps_submit : preserving.

Lemma keeps_handle_completion env request :
  preserves served_in_order (handle_completion send_fault env request).
Proof.
  unfold handle_completion, handle_bypass_request, check_and_pop,
    broadcast_queue_update.
  keeps.
Qed.
Hint Resolve keeps_handle_completion : preserving.

Lemma keeps_handle_completion_resume req_id elapsed :
  preserves served_in_order
    (handle_completion_resume send_fault req_id elapsed).
Proof. unfold handle_completion_resume, wait_for. keeps. Qed.
Hint Resolve keeps_handle_completion_resume : preserving.

End Order.

(** X5. On every run of the server from its start, whatever the
    interleaving of connections, operator messages, requests, timeouts
    and caller disconnects, and whatever consoles fail when, requests
    enter the slot in the order in which they were queued: the ids taken
    into the slot so far, followed by the ids still in the queue, are the
    ids queued so far.  No queued request is skipped, dropped from the
    queue or overtaken. *)
Theorem served_in_order_on_every_run
    (steps : list ((nat → option send_error) * action)) :
  let s := run steps initial_state in
  processed_ids s ++ map rq_id (pending_requests s) = queued_ids s ∧
  processed_ids s `prefix_of` queued_ids s.
Proof.
  cbn zeta.
  assert (∀ s, served_in_order s → served_in_order (run steps s)) as Hrun.
  { induction steps as [|[fault a] rest IH]; intros s Hs; [done|].
    cbn [run fst snd]. apply IH. destruct a; cbn [perform]; unfold exec.
    - by apply keeps_websocket_endpoint.
    - by apply keeps_serve.
    - by apply keeps_handle_completion.
    - by apply keeps_handle_completion_resume.
    - by apply keeps_check_client_disconnect. }
  assert (served_in_order (run steps initial_state)) as Hs
    by (by apply Hrun).
  split; [exact Hs|].
  exists (map rq_id (pending_requests (run steps initial_state))).
  by rewrite <- Hs.
Qed.

(** ** The broadcast hub and the bypass branch *)

Section Hub.

Variable send_fault : nat → option send_error.

Lemma filter_healthy_idemp (clients : list nat) :
  filter (λ ws, healthy send_fault ws)
    (filter (λ ws, healthy send_fault ws) clients) =
  filter (λ ws, healthy send_fault ws) clients.
Proof.
  induction clients as [|ws rest IH]; [done|].
  destruct (healthy send_fault ws) eqn:Hws.
  - rewrite (filter_cons_True _ ws rest) by (by rewrite Hws).
    rewrite filter_cons_True by (by rewrite Hws). by rewrite IH.
  - by rewrite (filter_cons_False _ ws rest) by (rewrite Hws; cbn; tauto).
Qed.

Lemma filter_unhealthy_healthy (clients : list nat) :
  filter (λ ws, ¬ healthy send_fault ws)
    (filter (λ ws, healthy send_fault ws) clients) = [].
Proof.
  induction clients as [|ws rest IH]; [done|].
  destruct (healthy send_fault ws) eqn:Hws.
  - rewrite (filter_cons_True _ ws rest) by (by rewrite Hws).
    rewrite filter_cons_False by (rewrite Hws; cbn; tauto). exact IH.
  - by rewrite (filter_cons_False _ ws rest) by (rewrite Hws; cbn; tauto).
Qed.

(** X6. [broadcast_websocket] never raises.  It delivers the message
    once to every console whose send succeeds, in the order of the set,
    logs one warning for every other console and removes exactly those
    from the set; the coordinator and the preset queues are untouched.  A
    second broadcast then finds nobody to remove. *)
Theorem broadcast_websocket_prunes_failed_consoles (message : event)
    (s : state) :
  let r := broadcast_websocket send_fault message s in
  let alive := filter (λ ws, healthy send_fault ws) (websocket_clients s) in
  r.1 = Returned tt ∧
  websocket_clients r.2 = alive ∧
  wire r.2 = wire s ++ map (λ ws, (ws, message)) alive ∧
  log r.2 =
    log s ++
    map LogSendFailed
      (filter (λ ws, ¬ healthy send_fault ws) (websocket_clients s)) ∧
  pending_requests r.2 = pending_requests s ∧
  current_request r.2 = current_request s ∧
  request_futures r.2 = request_futures s ∧
  queues r.2 = queues s ∧
  websocket_clients (exec (broadcast_websocket send_fault message) r.2)
    = alive ∧
  log (exec (broadcast_websocket send_fault message) r.2) = log r.2.
Proof.
  cbn zeta. unfold exec. rewrite !broadcast_websocket_run. cbn.
  rewrite filter_healthy_idemp, filter_unhealthy_healthy. cbn.
  rewrite app_nil_r. by repeat split.
Qed.

Lemma handle_bypass_request_run env request_body client_ip s :
  handle_bypass_request send_fault env request_body client_ip s =
    (Returned (bypass_response env),
     let alive := filter (λ ws, healthy send_fault ws) in
     let s1 :=
       set_websocket_clients alive
         (broadcasted send_fault (websocket_clients s)
            (BypassRequest (uuid_bypass env) client_ip request_body
               (target_url env)) s) in
     set_websocket_clients alive
       (broadcasted send_fault (websocket_clients s1)
          (BypassResponse (uuid_bypass env)
             (status_code (bypass_response env))
             (content (bypass_response env))
             (match forward_request env with
              | Forwarded _ _ => true
              | BypassError _ => false
              end)
             (match forward_request env with
              | Forwarded _ _ => None
              | BypassError message => Some message
              end)) s1)).
Proof.
  unfold handle_bypass_request, bypass_response.
  unfold bind at 1. rewrite broadcast_websocket_run.
  destruct (forward_request env) as [response_body status|message];
    unfold bind at 1; by rewrite broadcast_websocket_run.
Qed.

(** X7. [handle_bypass_request] never raises.  It answers with the
    body and the status of the upstream service as they are, error
    statuses included, and with 502 and the message when the forwarding
    failed.  The consoles that can be reached get the [bypass_request]
    event and then the [bypass_response] event under the same id; the
    others leave the set; the coordinator and the preset queues are
    untouched. *)
Theorem handle_bypass_request_reports_both_ways (env : environment)
    (request_body : json) (client_ip : string) (s : state) :
  let r := handle_bypass_request send_fault env request_body client_ip s in
  let alive := filter (λ ws, healthy send_fault ws) (websocket_clients s) in
  r.1 = Returned (bypass_response env) ∧
  websocket_clients r.2 = alive ∧
  wire r.2 =
    wire s ++
    map (λ ws, (ws, BypassRequest (uuid_bypass env) client_ip request_body
                      (target_url env))) alive ++
    map (λ ws, (ws, BypassResponse (uuid_bypass env)
                      (status_code (bypass_response env))
                      (content (bypass_response env))
                      (match forward_request env with
                       | Forwarded _ _ => true
                       | BypassError _ => false
                       end)
                      (match forward_request env with
                       | Forwarded _ _ => None
                       | BypassError message => Some message
                       end))) alive ∧
  pending_requests r.2 = pending_requests s ∧
  current_request r.2 = current_request s ∧
  request_futures r.2 = request_futures s ∧
  queues r.2 = queues s.
Proof.
  cbn zeta. rewrite handle_bypass_request_run. cbn zeta.
  cbn [fst snd websocket_clients pending_requests current_request
       request_futures queues wire log set_websocket_clients broadcasted].
  rewrite filter_healthy_idemp, <- app_assoc. by repeat split.
Qed.

End Hub.

(** ** The control channel and the life of a request *)

Section Coordinator.

Variable send_fault : nat → option send_error.

Lemma reached_all (clients : list nat) :
  first_fault send_fault clients = None → reached send_fault clients = clients.
Proof.
  induction clients as [|ws rest IH]; [done|]. cbn.
  destruct (send_fault ws); [done|]. intros H. by rewrite IH.
Qed.

Lemma filter_remove_last (ws : nat) (clients : list nat) :
  ws ∉ clients → filter (λ w, w ≠ ws) (clients ++ [ws]) = clients.
Proof.
  intros Hnot. rewrite filter_app.
  rewrite (filter_cons_False _ ws []) by (intros H; by apply H).
  rewrite filter_nil, app_nil_r.
  induction clients as [|w rest IH]; [done|].
  apply not_elem_of_cons in Hnot as [Hne Hrest].
  rewrite filter_cons_True by done. by rewrite IH.
Qed.

(** X8. A console that connects is added to the set and, when a request
    holds the slot, is sent that request at once.  When the connection
    then closes, the console leaves the set again and the state is the
    one before the connection, but for the replayed message on the wire.
    When the replay itself fails, the handler ends there and the console
    stays in the set for good. *)
Theorem console_connects_and_leaves (ws : nat) (s : state) :
  ws ∉ websocket_clients s →
  let replayed :=
    match current_request s with
    | Some cur => emit ws (NewRequest cur) s
    | None => s
    end in
  (send_fault ws = None →
     websocket_endpoint send_fault ws [] s =
       (Returned Listening,
        set_websocket_clients (λ clients, clients ++ [ws]) replayed) ∧
     websocket_endpoint send_fault ws [Close] s = (Returned Closed, replayed)) ∧
  (∀ err cur frames,
     send_fault ws = Some err → current_request s = Some cur →
     websocket_endpoint send_fault ws frames s =
       (Raised (exn_of_send_error err),
        set_websocket_clients (λ clients, clients ++ [ws]) s)).
Proof.
  intros Hnot. cbn zeta.
  assert (∀ frames,
            websocket_endpoint send_fault ws frames s =
              match current_request s with
              | Some cur =>
                  match send_fault ws with
                  | None =>
                      serve send_fault ws frames
                        (emit ws (NewRequest cur)
                           (set_websocket_clients
                              (λ clients, clients ++ [ws]) s))
                  | Some err =>
                      (Raised (exn_of_send_error err),
                       set_websocket_clients (λ clients, clients ++ [ws]) s)
                  end
              | None =>
                  serve send_fault ws frames
                    (set_websocket_clients (λ clients, clients ++ [ws]) s)
              end) as Hrun.
  { intros frames. unfold websocket_endpoint.
    unfold bind at 1. unfold modify at 1.
    assert (set_websocket_clients (clients_add ws) s =
            set_websocket_clients (λ clients, clients ++ [ws]) s) as ->.
    { unfold set_websocket_clients, clients_add.
      by rewrite decide_False. }
    unfold bind at 1. unfold bind at 1. unfold gets at 1.
    cbn [current_request set_websocket_clients].
    destruct (current_request s) as [cur|]; [|done].
    unfold send_json. by destruct (send_fault ws). }
  split.
  - intros Hok. rewrite !Hrun, Hok.
    destruct s as [cl pend cur fut qs byp w lg]. cbn in Hnot.
    assert (ws ∈ cl ++ [ws]) as Hin by (apply elem_of_app; right; by left).
    split.
    + by destruct cur as [cur|].
    + destruct cur as [cur|].
      * unfold serve, try_except, bind, clients_remove, gets, modify, ret,
          emit, set_websocket_clients; cbn.
        rewrite decide_True by done. cbn.
        by rewrite (filter_remove_last ws cl Hnot).
      * unfold serve, try_except, bind, clients_remove, gets, modify, ret,
          emit, set_websocket_clients; cbn.
        rewrite decide_True by done. cbn.
        by rewrite (filter_remove_last ws cl Hnot).
  - intros err cur frames Herr Hcur. by rewrite Hrun, Hcur, Herr.
Qed.

(** X9. A console whose send failed during a [broadcast_websocket] has
    been removed from the set by the time its own handler sees the
    connection close; [websocket_clients.remove(ws)] then raises
    [KeyError] out of the handler and changes nothing. *)
Theorem pruned_console_raises_on_close (ws : nat) (err : send_error)
    (message : event) (close_fault : nat → option send_error) (s : state) :
  send_fault ws = Some err →
  let s1 := exec (broadcast_websocket send_fault message) s in
  serve close_fault ws [Close] s1 = (Raised (KeyError (SetElement ws)), s1).
Proof.
  intros Herr. cbn zeta.
  unfold serve, try_except, bind, clients_remove, gets. cbn.
  rewrite decide_False; [done|].
  unfold exec. rewrite broadcast_websocket_run. cbn.
  rewrite list_elem_of_filter. intros [Hh _].
  unfold healthy in Hh. by rewrite Herr in Hh.
Qed.

(** X10. When the operator resolves a pending request while a request
    holds the slot and every console can be reached, the handler returns
    normally, the future holds the operator's response (status 200 when
    the message gives none), every console receives the
    [completed_request] event and then, if a request waits, the
    [new_request] event of the head of the queue, which now holds the
    slot. *)
Theorem operator_resolve_advances fields k response_data cur (s : state) :
  dict_get "type" fields = Some (JStr "send_response") →
  dict_get "id" fields = Some (JStr k) →
  dict_get "response" fields = Some response_data →
  request_futures s !! k = Some Pending →
  current_request s = Some cur →
  first_fault send_fault (websocket_clients s) = None →
  let status := get_default (JObj fields) "status_code" (JNum 200) in
  let r := on_message send_fault (JObj fields) s in
  r.1 = Returned tt ∧
  request_futures r.2 =
    <[k := Result response_data status]> (request_futures s) ∧
  current_request r.2 = head (pending_requests s) ∧
  pending_requests r.2 = tail (pending_requests s) ∧
  websocket_clients r.2 = websocket_clients s ∧
  wire r.2 =
    wire s ++
    map (λ ws, (ws, CompletedRequest (JStr k) (rq_ip cur) (rq_port cur)
                      (rq_body cur) response_data status))
      (websocket_clients s) ++
    match pending_requests s with
    | next :: _ => map (λ ws, (ws, NewRequest next)) (websocket_clients s)
    | [] => []
    end.
Proof.
  intros Htype Hid Hresp Hp Hcur Hok. cbn zeta.
  rewrite (on_message_clears_any_current send_fault fields k response_data
             cur s Htype Hid Hresp Hp Hcur Hok).
  cbn zeta. rewrite process_next_request_run.
  cbn [current_request pending_requests set_current_request deliver add_log
       set_request_futures websocket_clients].
  rewrite (reached_all _ Hok).
  destruct (pending_requests s) as [|next rest] eqn:Hq.
  - cbn. rewrite app_nil_r, ?Hq. by repeat split.
  - cbn. rewrite ?Hok, ?(reached_all _ Hok), <- ?app_assoc, ?Hq.
    by repeat split.
Qed.

Lemma handle_completion_resume_result req_id elapsed response_data status s :
  request_futures s !! req_id = Some (Result response_data status) →
  handle_completion_resume send_fault req_id elapsed s =
    match _cleanup_current_request send_fault req_id
            (set_request_futures (delete req_id) s) with
    | (Returned _, s') =>
        (Returned (Responded (mkJSONResponse response_data status)), s')
    | (Raised e, s') => (Raised e, s')
    end.
Proof.
  intros Hf. unfold handle_completion_resume.
  unfold bind at 1. unfold gets at 1. unfold waiting. rewrite Hf.
  cbn [done negb andb]. unfold try_finally, try_except.
  unfold bind at 1. unfold wait_for. unfold bind at 1. unfold gets at 1.
  rewrite Hf. unfold ret at 1. unfold ret at 1.
  unfold bind at 1. unfold modify at 1.
  by destruct (_cleanup_current_request send_fault req_id _) as [[[]|e'] s2].
Qed.

(** X11. A handler that is woken with its future resolved returns the
    response and the status stored in the future, however late it is
    woken (a result that has arrived wins over the timeout), and removes
    the future from the table; when the slot is empty or holds another
    request it changes nothing else. *)
Theorem handle_completion_resume_returns_result (req_id : string)
    (elapsed : Z) (response_data status : json) (s : state) :
  request_futures s !! req_id = Some (Result response_data status) →
  (∀ cur, current_request s = Some cur → rq_id cur ≠ req_id) →
  handle_completion_resume send_fault req_id elapsed s =
    (Returned (Responded (mkJSONResponse response_data status)),
     set_request_futures (delete req_id) s).
Proof.
  intros Hf Hother.
  rewrite (handle_completion_resume_result _ _ _ _ _ Hf).
  rewrite _cleanup_current_request_run.
  cbn [current_request set_request_futures].
  destruct (current_request s) as [cur|] eqn:Hcur; [|done].
  by rewrite decide_False by (by apply Hother).
Qed.

(** X12. The whole manual round on an idle coordinator with consoles
    that can be reached: the request is suspended and announced, the
    operator's message resolves it, and the woken handler returns the
    operator's response with the operator's status, 200 when none was
    given.  Afterwards the slot and the queue are empty again and the
    table of futures is the one before the request. *)
Theorem manual_round_trip (env : environment) (request : http_request)
    fields response_data (elapsed : Z) (s : state) :
  bypass_enabled s = false →
  queues s !! client_host request = None ∨
    queues s !! client_host request = Some [] →
  current_request s = None → pending_requests s = [] →
  request_futures s !! uuid_req env = None →
  first_fault send_fault (websocket_clients s) = None →
  dict_get "type" fields = Some (JStr "send_response") →
  dict_get "id" fields = Some (JStr (uuid_req env)) →
  dict_get "response" fields = Some response_data →
  let robj := request_obj_of (uuid_req env) (loop_time env) request in
  let status := get_default (JObj fields) "status_code" (JNum 200) in
  let s1 := exec (handle_completion send_fault env request) s in
  let s2 := exec (on_message send_fault (JObj fields)) s1 in
  let r := handle_completion_resume send_fault (uuid_req env) elapsed s2 in
  result (handle_completion send_fault env request) s = Returned Suspended ∧
  current_request s1 = Some robj ∧
  r.1 = Returned (Responded (mkJSONResponse response_data status)) ∧
  current_request r.2 = None ∧ pending_requests r.2 = [] ∧
  request_futures r.2 = request_futures s ∧
  websocket_clients r.2 = websocket_clients s ∧
  wire r.2 =
    wire s ++
    map (λ ws, (ws, NewRequest robj)) (websocket_clients s) ++
    map (λ ws, (ws, CompletedRequest (JStr (uuid_req env))
                      (client_host request) (client_port request)
                      (hr_body request) response_data status))
      (websocket_clients s).
Proof.
  intros Hb Hq Hcur Hpend Hfresh Hok Htype Hid Hresp. cbn zeta.
  set (robj := request_obj_of (uuid_req env) (loop_time env) request).
  set (status := get_default (JObj fields) "status_code" (JNum 200)).
  assert (handle_completion send_fault env request s =
          (Returned Suspended,
           deliver (websocket_clients s) (NewRequest robj)
             (add_log (LogProcessing (uuid_req env))
                (set_current_request (Some robj)
                   (set_pending_requests (λ _, [])
                      (add_log
                         (LogQueued (uuid_req env) (client_host request)
                            (client_port request))
                         (set_pending_requests (λ q, q ++ [robj])
                            (set_request_futures
                               (<[uuid_req env := Pending]>) s)))))))) as H1.
  { rewrite (handle_completion_manual_run send_fault env request s Hb Hq).
    unfold bind at 1. rewrite submit_run, process_next_request_run.
    cbn [current_request pending_requests add_log set_pending_requests
         set_request_futures websocket_clients].
    rewrite Hcur, Hpend, Hok, (reached_all _ Hok). done. }
  unfold exec, result. rewrite H1. cbn [fst snd].
  split; [done|]. split; [done|].
  match goal with |- context [on_message send_fault (JObj fields) ?st] =>
    set (s1 := st) end.
  assert (request_futures s1 !! uuid_req env = Some Pending) as Hp1
    by (cbn; by rewrite lookup_insert_eq).
  assert (current_request s1 = Some robj) as Hc1 by done.
  assert (first_fault send_fault (websocket_clients s1) = None) as Hok1
    by done.
  rewrite (on_message_clears_any_current send_fault fields (uuid_req env)
             response_data robj s1 Htype Hid Hresp Hp1 Hc1 Hok1).
  cbn zeta. fold status. rewrite process_next_request_run.
  subst s1.
  cbn [current_request pending_requests set_current_request
       set_pending_requests deliver add_log set_request_futures
       websocket_clients fst snd].
  rewrite (reached_all _ Hok).
  match goal with |- context [handle_completion_resume _ _ _ ?st] =>
    set (s2 := st) end.
  assert (request_futures s2 !! uuid_req env =
          Some (Result response_data status)) as Hres
    by (cbn; by rewrite lookup_insert_eq).
  rewrite (handle_completion_resume_result _ elapsed _ _ s2 Hres).
  rewrite _cleanup_current_request_run.
  subst s2. cbn. rewrite <- app_assoc.
  repeat split.
  rewrite delete_insert_eq, delete_insert_eq. by rewrite delete_id.
Qed.

Lemma handle_completion_resume_cancelled req_id elapsed msg s :
  request_futures s !! req_id = Some (Failed (CancelledError msg)) →
  handle_completion_resume send_fault req_id elapsed s =
    match _cleanup_current_request send_fault req_id
            (set_request_futures (delete req_id)
               (add_log (LogCancelled req_id) s)) with
    | (Returned _, s') =>
        (Returned
           (Responded
              (mkJSONResponse
                 (JObj [("error",
                         JStr "Request cancelled - client disconnected")])
                 (JNum 499))), s')
    | (Raised e, s') => (Raised e, s')
    end.
Proof.
  intros Hf. unfold handle_completion_resume.
  unfold bind at 1. unfold gets at 1. unfold waiting. rewrite Hf.
  cbn [done negb andb]. unfold try_finally, try_except.
  unfold bind at 1. unfold wait_for. unfold bind at 1. unfold gets at 1.
  rewrite Hf. unfold raise at 1.
  unfold bind at 1. unfold modify at 1. unfold ret at 1.
  unfold bind at 1. unfold modify at 1.
  by destruct (_cleanup_current_request send_fault req_id _) as [[[]|e'] s2].
Qed.

(** X13. The caller of the current request disconnects.  The watcher
    fails the future; the woken handler answers 499, removes the future,
    clears the slot and advances, so the head of the queue now holds the
    slot.  An operator message for the request that arrives afterwards
    does nothing. *)
Theorem caller_disconnect_frees_slot (req_id : string) (cur : request_obj)
    (elapsed : Z) (s : state) :
  request_futures s !! req_id = Some Pending →
  current_request s = Some cur → rq_id cur = req_id →
  first_fault send_fault (websocket_clients s) = None →
  let s1 := exec (_check_client_disconnect req_id) s in
  let r := handle_completion_resume send_fault req_id elapsed s1 in
  r.1 = Returned
          (Responded
             (mkJSONResponse
                (JObj [("error",
                        JStr "Request cancelled - client disconnected")])
                (JNum 499))) ∧
  request_futures r.2 = delete req_id (request_futures s) ∧
  current_request r.2 = head (pending_requests s) ∧
  pending_requests r.2 = tail (pending_requests s) ∧
  ∀ response_data status,
    on_message send_fault (send_response req_id response_data status) r.2 =
      (Returned tt, r.2).
Proof.
  intros Hp Hcur Hid Hok. cbn zeta.
  set (r := handle_completion_resume send_fault req_id elapsed
              (exec (_check_client_disconnect req_id) s)).
  assert (r.1 = Returned
                  (Responded
                     (mkJSONResponse
                        (JObj [("error",
                                JStr "Request cancelled - client disconnected")])
                        (JNum 499))) ∧
          request_futures r.2 = delete req_id (request_futures s) ∧
          current_request r.2 = head (pending_requests s) ∧
          pending_requests r.2 = tail (pending_requests s))
    as (R1 & R2 & R3 & R4).
  { subst r.
    assert (exec (_check_client_disconnect req_id) s =
            set_request_futures
              (<[req_id := Failed (CancelledError "Client disconnected")]>)
              (add_log (LogClientDisconnected req_id) s)) as ->.
    { unfold exec, _check_client_disconnect, cancel, bind, modify, gets. cbn.
      by rewrite Hp. }
    rewrite (handle_completion_resume_cancelled req_id elapsed
               "Client disconnected") by (cbn; by rewrite lookup_insert_eq).
    rewrite _cleanup_current_request_run.
    cbn [current_request set_request_futures add_log].
    rewrite Hcur, decide_True by done.
    rewrite process_next_request_run.
    cbn [current_request pending_requests set_current_request add_log
         set_request_futures websocket_clients].
    assert (delete req_id
              (<[req_id := Failed (CancelledError "Client disconnected")]>
                 (request_futures s)) = delete req_id (request_futures s))
      as Hdel by (by rewrite delete_insert_eq).
    destruct (pending_requests s) as [|next rest] eqn:Hq.
    - cbn. by rewrite Hdel.
    - rewrite Hok. cbn. by rewrite Hdel. }
  clearbody r.
  split; [exact R1|]. split; [exact R2|]. split; [exact R3|].
  split; [exact R4|].
  intros response_data status.
  apply (stale_completion_noop send_fault (Resolve response_data status)
           req_id r.2).
  intros f. by rewrite R2, lookup_delete_eq.
Qed.

(** X14. A request whose wait ends while it is still in the queue (the
    timeout here) gets its 504 and loses its future, but stays in
    [pending_requests]: the slot and the queue are unchanged.  When such
    a request later holds the slot, its future being gone, an operator
    message that names it does nothing. *)
Theorem timed_out_in_queue_stays_queued (req_id : string) (cur : request_obj)
    (elapsed : Z) (s : state) :
  request_futures s !! req_id = Some Pending →
  current_request s = Some cur → rq_id cur ≠ req_id →
  (wait_timeout ≤ elapsed)%Z →
  let r := handle_completion_resume send_fault req_id elapsed s in
  r.1 = Returned
          (Responded
             (mkJSONResponse
                (JObj [("error", JStr "Timeout waiting for mock response")])
                (JNum 504))) ∧
  pending_requests r.2 = pending_requests s ∧
  current_request r.2 = current_request s ∧
  request_futures r.2 = delete req_id (request_futures s) ∧
  ∀ holder response_data status (s2 : state),
    current_request s2 = Some holder →
    request_futures s2 !! rq_id holder = None →
    on_message send_fault
      (send_response (rq_id holder) response_data status) s2 =
      (Returned tt, s2).
Proof.
  intros Hp Hcur Hne Hge. cbn zeta.
  destruct (handle_completion_resume_timeout send_fault req_id elapsed s Hp)
    as (_ & Hto).
  destruct (Hto Hge) as (Hrun & _). rewrite Hrun.
  rewrite (_cleanup_current_request_other send_fault req_id cur) by done.
  cbn. repeat split; try done.
  - apply map_eq. intros k. destruct (decide (k = req_id)) as [->|Hk].
    + by rewrite !lookup_delete_eq.
    + rewrite !lookup_delete_ne by done. rewrite lookup_alter_ne; done.
  - intros holder response_data status s2 Hh Hnone.
    apply (stale_completion_noop send_fault (Resolve response_data status)).
    intros f. by rewrite Hnone.
Qed.

End Coordinator.

Lemma console_connects_and_leaves_witness :
  let s := two_submitted in
  let replayed :=
    match current_request s with
    | Some cur => emit 5 (NewRequest cur) s
    | None => s
    end in
  (5 ∉ websocket_clients s) ∧
  (all_good 5 = None →
     websocket_endpoint all_good 5 [] s =
       (Returned Listening,
        set_websocket_clients (λ clients, clients ++ [5]) replayed) ∧
     websocket_endpoint all_good 5 [Close] s = (Returned Closed, replayed)) ∧
  (∀ err cur frames,
     all_good 5 = Some err → current_request s = Some cur →
     websocket_endpoint all_good 5 frames s =
       (Raised (exn_of_send_error err),
        set_websocket_clients (λ clients, clients ++ [5]) s)).
Proof.
  cbn zeta.
  assert (5 ∉ websocket_clients two_submitted) as Hnot
    by (vm_compute; apply not_elem_of_nil).
  split; [exact Hnot|].
  exact (console_connects_and_leaves all_good 5 two_submitted Hnot).
Defined.

Lemma pruned_console_raises_on_close_witness :
  let message := QueueEvent "queue_updated" None in
  let s1 :=
    exec (broadcast_websocket console_1_dead message)
      two_consoles_two_submitted in
  console_1_dead 1 = Some SendClosed ∧
  serve all_good 1 [Close] s1 = (Raised (KeyError (SetElement 1)), s1).
Proof.
  cbn zeta. split; [reflexivity|].
  apply (pruned_console_raises_on_close console_1_dead 1 SendClosed
           (QueueEvent "queue_updated" None) all_good
           two_consoles_two_submitted).
  reflexivity.
Defined.

Lemma operator_resolve_advances_witness :
  let fields := [("type", JStr "send_response"); ("id", JStr "A");
                 ("response", JStr "ok")] in
  let r := on_message all_good (JObj fields) two_submitted in
  request_futures two_submitted !! "A" = Some Pending ∧
  first_fault all_good (websocket_clients two_submitted) = None ∧
  r.1 = Returned tt ∧
  request_futures r.2 =
    <["A" := Result (JStr "ok") (JNum 200)]> (request_futures two_submitted) ∧
  current_request r.2 = head (pending_requests two_submitted) ∧
  pending_requests r.2 = tail (pending_requests two_submitted).
Proof.
  cbn zeta. split; [reflexivity|]. split; [reflexivity|].
  destruct (operator_resolve_advances all_good
              [("type", JStr "send_response"); ("id", JStr "A");
               ("response", JStr "ok")] "A" (JStr "ok")
              (request_obj_of "A" "0.0" (request_from "10.0.0.1"))
              two_submitted eq_refl eq_refl eq_refl eq_refl eq_refl eq_refl)
    as (H1 & H2 & H3 & H4 & _).
  repeat split; assumption.
Defined.

Lemma handle_completion_resume_returns_result_witness :
  let s :=
    exec (on_message all_good (send_response "A" (JStr "ok") (JNum 201)))
      two_submitted in
  request_futures s !! "A" = Some (Result (JStr "ok") (JNum 201)) ∧
  (∀ cur, current_request s = Some cur → rq_id cur ≠ "A") ∧
  handle_completion_resume all_good "A" 1000 s =
    (Returned (Responded (mkJSONResponse (JStr "ok") (JNum 201))),
     set_request_futures (delete "A") s).
Proof.
  cbn zeta.
  assert (∀ cur,
            current_request
              (exec (on_message all_good
                       (send_response "A" (JStr "ok") (JNum 201)))
                 two_submitted) = Some cur → rq_id cur ≠ "A") as Hother.
  { intros cur Hcur. vm_compute in Hcur. injection Hcur as <-.
    vm_compute. discriminate. }
  split; [reflexivity|]. split; [exact Hother|].
  exact (handle_completion_resume_returns_result all_good "A" 1000
           (JStr "ok") (JNum 201)
           (exec (on_message all_good
                    (send_response "A" (JStr "ok") (JNum 201)))
              two_submitted) eq_refl Hother).
Defined.

Lemma manual_round_trip_witness :
  let env := env_for "A" in
  let request := request_from "10.0.0.1" in
  let fields := [("type", JStr "send_response"); ("id", JStr "A");
                 ("response", JStr "ok")] in
  let s := exec (websocket_endpoint all_good 1 []) initial_state in
  let s1 := exec (handle_completion all_good env request) s in
  let s2 := exec (on_message all_good (JObj fields)) s1 in
  let r := handle_completion_resume all_good "A" 12 s2 in
  bypass_enabled s = false ∧
  current_request s = None ∧ pending_requests s = [] ∧
  request_futures s !! "A" = None ∧
  r.1 = Returned (Responded (mkJSONResponse (JStr "ok") (JNum 200))) ∧
  current_request r.2 = None ∧ pending_requests r.2 = [] ∧
  request_futures r.2 = request_futures s.
Proof.
  cbn zeta. split; [reflexivity|]. split; [reflexivity|].
  split; [reflexivity|]. split; [reflexivity|].
  destruct (manual_round_trip all_good (env_for "A") (request_from "10.0.0.1")
              [("type", JStr "send_response"); ("id", JStr "A");
               ("response", JStr "ok")] (JStr "ok") 12
              (exec (websocket_endpoint all_good 1 []) initial_state)
              eq_refl (or_introl eq_refl) eq_refl eq_refl eq_refl eq_refl
              eq_refl eq_refl eq_refl)
    as (_ & _ & H3 & H4 & H5 & H6 & _).
  repeat split; assumption.
Defined.

Lemma caller_disconnect_frees_slot_witness :
  let s1 := exec (_check_client_disconnect "A") two_submitted in
  let r := handle_completion_resume all_good "A" 7 s1 in
  request_futures two_submitted !! "A" = Some Pending ∧
  rq_id <$> current_request two_submitted = Some "A" ∧
  r.1 = Returned
          (Responded
             (mkJSONResponse
                (JObj [("error",
                        JStr "Request cancelled - client disconnected")])
                (JNum 499))) ∧
  request_futures r.2 = delete "A" (request_futures two_submitted) ∧
  current_request r.2 = head (pending_requests two_submitted).
Proof.
  cbn zeta. split; [reflexivity|]. split; [reflexivity|].
  destruct (caller_disconnect_frees_slot all_good "A"
              (request_obj_of "A" "0.0" (request_from "10.0.0.1")) 7
              two_submitted eq_refl eq_refl eq_refl eq_refl)
    as (H1 & H2 & H3 & _).
  repeat split; assumption.
Defined.

Lemma timed_out_in_queue_stays_queued_witness :
  let r := handle_completion_resume all_good "B" 300 two_submitted in
  request_futures two_submitted !! "B" = Some Pending ∧
  rq_id <$> current_request two_submitted = Some "A" ∧
  (wait_timeout ≤ 300)%Z ∧
  r.1 = Returned
          (Responded
             (mkJSONResponse
                (JObj [("error", JStr "Timeout waiting for mock response")])
                (JNum 504))) ∧
  pending_requests r.2 = pending_requests two_submitted ∧
  rq_id <$> pending_requests r.2 = ["B"] ∧
  request_futures r.2 = delete "B" (request_futures two_submitted).
Proof.
  cbn zeta. split; [reflexivity|]. split; [reflexivity|].
  assert (wait_timeout ≤ 300)%Z as Hge by (vm_compute; discriminate).
  split; [exact Hge|].
  assert (rq_id (request_obj_of "A" "0.0" (request_from "10.0.0.1")) ≠ "B")
    as Hne by (vm_compute; discriminate).
  destruct (timed_out_in_queue_stays_queued all_good "B"
              (request_obj_of "A" "0.0" (request_from "10.0.0.1")) 300
              two_submitted eq_refl eq_refl Hne Hge)
    as (H1 & H2 & _ & H4 & _).
  split; [exact H1|]. split; [exact H2|]. split; [|exact H4].
  rewrite H2. reflexivity.
Defined.

(** ** The routes of the preset queues *)

Lemma existsb_validate_below k idx arr :
  (k < idx)%nat →
  existsb (λ e : nat * string, Nat.eqb e.1 k)
    (validate_array_elements_from idx arr) = false.
Proof.
  revert idx. induction arr as [|item rest IH]; intros idx Hlt; [done|].
  cbn [validate_array_elements_from]. rewrite existsb_app.
  rewrite IH by lia. rewrite orb_false_r.
  destruct (is_dict item); [done|]. cbn.
  rewrite orb_false_r. apply Nat.eqb_neq. lia.
Qed.

Lemma existsb_validate_at j idx arr :
  existsb (λ e : nat * string, Nat.eqb e.1 (idx + j))
    (validate_array_elements_from idx arr) =
  from_option (λ item, negb (is_dict item)) false (arr !! j).
Proof.
  revert idx j. induction arr as [|item rest IH]; intros idx j; [done|].
  cbn [validate_array_elements_from]. rewrite existsb_app.
  destruct j as [|j].
  - rewrite Nat.add_0_r, existsb_validate_below by lia.
    rewrite orb_false_r. cbn.
    destruct (is_dict item); [done|]. cbn. by rewrite Nat.eqb_refl.
  - replace (idx + S j)%nat with (S idx + j)%nat by lia.
    rewrite IH. cbn.
    destruct (is_dict item); [done|]. cbn.
    rewrite orb_false_r.
    replace (idx =? S (idx + j))%nat with false; [done|].
    symmetry. apply Nat.eqb_neq. lia.
Qed.

Lemma length_validate_array_elements_from idx arr :
  length (validate_array_elements_from idx arr) =
    length (filter (λ v, ¬ is_dict v) arr).
Proof.
  revert idx. induction arr as [|item rest IH]; intros idx; [done|].
  cbn [validate_array_elements_from]. rewrite length_app, IH.
  destruct (is_dict item) eqn:Hd.
  - by rewrite filter_cons_False by (rewrite Hd; cbn; tauto).
  - by rewrite filter_cons_True by (rewrite Hd; cbn; tauto).
Qed.

Lemma imported_responses ids clock status idx arr :
  map served (imported ids clock status idx arr) =
    map (λ v, (v, status)) (filter (λ v, is_dict v) arr).
Proof.
  revert idx. induction arr as [|item rest IH]; intros idx; [done|].
  cbn [imported]. rewrite map_app, IH.
  destruct (is_dict item) eqn:Hd.
  - by rewrite filter_cons_True by (by rewrite Hd).
  - by rewrite filter_cons_False by (rewrite Hd; cbn; tauto).
Qed.

Lemma add_valid_run ids clock ip status E arr : ∀ idx added s,
  (∀ j, existsb (λ e : nat * string, Nat.eqb e.1 (idx + j)) E =
        from_option (λ item, negb (is_dict item)) false (arr !! j)) →
  add_valid ids clock ip status E idx arr added s =
    (Returned (added ++ map pi_id (imported ids clock status idx arr)),
     exec (add_all ip (imported ids clock status idx arr)) s).
Proof.
  induction arr as [|item rest IH]; intros idx added s HE.
  - cbn. by rewrite app_nil_r.
  - cbn [add_valid imported].
    pose proof (HE 0%nat) as H0. rewrite Nat.add_0_r in H0. cbn in H0.
    rewrite H0.
    assert (∀ j, existsb (λ e : nat * string, Nat.eqb e.1 (S idx + j)) E =
                 from_option (λ item, negb (is_dict item)) false (rest !! j))
      as HE'.
    { intros j. replace (S idx + j)%nat with (idx + S j)%nat by lia.
      by rewrite HE. }
    destruct (is_dict item); cbn [negb app].
    + unfold bind at 1.
      change (add_response (ids idx) (clock idx) ip item status s)
        with (Returned (ids idx),
              exec (add_response (ids idx) (clock idx) ip item status) s).
      cbn iota. rewrite IH by done. cbn [map pi_id app].
      by rewrite <- app_assoc.
    + by rewrite IH.
Qed.

Lemma add_all_only_queues ip items : ∀ s,
  ∃ f, exec (add_all ip items) s = set_queues f s.
Proof.
  induction items as [|item rest IH]; intros s.
  - exists (λ qs, qs). by destruct s.
  - change (exec (add_all ip (item :: rest)) s)
      with (exec (add_all ip rest)
              (exec (add_response (pi_id item) (pi_created_at item) ip
                       (pi_response item) (pi_status_code item)) s)).
    destruct (IH (exec (add_response (pi_id item) (pi_created_at item) ip
                          (pi_response item) (pi_status_code item)) s))
      as [f ->].
    eexists (λ qs, f (_ qs)). reflexivity.
Qed.

Lemma queue_of_broadcast_queue_update fault event_type ip ip' s :
  queue_of ip' (exec (broadcast_queue_update fault event_type ip) s) =
    queue_of ip' s.
Proof.
  unfold broadcast_queue_update, exec. by rewrite broadcast_websocket_run.
Qed.

Lemma length_filter_split {A} (P : A → Prop) `{∀ x, Decision (P x)}
    (l : list A) :
  (length (filter P l) + length (filter (λ x, ¬ P x) l) = length l)%nat.
Proof.
  induction l as [|x l IH]; [done|].
  destruct (decide (P x)).
  - rewrite filter_cons_True, (filter_cons_False (λ x, ¬ P x)) by tauto.
    cbn. lia.
  - rewrite filter_cons_False, (filter_cons_True (λ x, ¬ P x)) by tauto.
    cbn. lia.
Qed.

Section RoutesProperties.

Variable send_fault : nat → option send_error.
Variable decode_utf8 : string → option string.
Variable json_loads : string → json + json_error.

Lemma import_queue_run ids clock ip content text arr s :
  (Z.of_nat (String.length content) ≤ 10 * 1024 * 1024)%Z →
  decode_utf8 content = Some text →
  json_loads text = inl (JArr arr) →
  import_queue send_fault decode_utf8 json_loads ids clock ip content s =
    let items := imported ids clock (JNum 200) 0 arr in
    (Returned (Ok (ImportResult (length arr) (length items)
                     (length (validate_array_elements arr))
                     (validate_array_elements arr))),
     exec (broadcast_queue_update send_fault "queue_updated" (Some ip))
       (exec (add_all ip items) s)).
Proof.
  intros Hsize Hdec Hjson. unfold import_queue.
  assert ((10 * 1024 * 1024 <? Z.of_nat (String.length content))%Z = false)
    as -> by (apply Z.ltb_ge; lia).
  rewrite Hdec. unfold validate_import_array, validate_json. rewrite Hjson.
  unfold bind at 1. rewrite add_valid_run.
  2: { intros j. apply (existsb_validate_at j 0 arr). }
  unfold bind at 1. unfold exec.
  unfold broadcast_queue_update. rewrite broadcast_websocket_run.
  cbn [ret app]. by rewrite length_map.
Qed.

(** X15. An import of a file that is a JSON array appends one preset
    item, with status 200, for every element that is an object, in the
    order of the array, to the queue of the address, and reports the
    other elements by their index.  The two counts add up to the length
    of the array; the queues of the other addresses and the coordinator
    are untouched. *)
Theorem import_adds_the_objects (ids : nat → string) (clock : nat → Z)
    (ip content text : string) (arr : list json) (s : state) :
  (Z.of_nat (String.length content) ≤ 10 * 1024 * 1024)%Z →
  decode_utf8 content = Some text →
  json_loads text = inl (JArr arr) →
  let r := import_queue send_fault decode_utf8 json_loads ids clock ip
             content s in
  ∃ (res : import_result) (items : list preset_item),
    r.1 = Returned (Ok res) ∧
    import_total res = length arr ∧
    import_added_count res = length (filter (λ v, is_dict v) arr) ∧
    import_failed_count res = length (filter (λ v, ¬ is_dict v) arr) ∧
    (import_added_count res + import_failed_count res = import_total res)%nat ∧
    import_errors res = validate_array_elements arr ∧
    queue_of ip r.2 = queue_of ip s ++ items ∧
    map served items =
      map (λ v, (v, JNum 200)) (filter (λ v, is_dict v) arr) ∧
    (∀ ip', ip' ≠ ip → queue_of ip' r.2 = queue_of ip' s) ∧
    pending_requests r.2 = pending_requests s ∧
    current_request r.2 = current_request s ∧
    request_futures r.2 = request_futures s.
Proof.
  intros Hsize Hdec Hjson. cbn zeta.
  rewrite (import_queue_run ids clock ip content text arr s Hsize Hdec Hjson).
  cbn zeta. cbn [fst snd].
  set (items := imported ids clock (JNum 200) 0 arr).
  assert (map served items =
          map (λ v, (v, JNum 200)) (filter (λ v, is_dict v) arr)) as Hserved
    by apply imported_responses.
  assert (length items = length (filter (λ v, is_dict v) arr)) as Hlen.
  { rewrite <- (length_map served items), Hserved. by rewrite length_map. }
  eexists _, items. split; [reflexivity|]. cbn.
  split; [done|]. split; [done|].
  split; [apply length_validate_array_elements_from|].
  split.
  { unfold validate_array_elements.
    rewrite Hlen, length_validate_array_elements_from.
    apply length_filter_split. }
  split; [done|].
  split.
  { rewrite queue_of_broadcast_queue_update.
    by rewrite queue_of_add_all, decide_True. }
  split; [done|].
  split.
  { intros ip' Hne. rewrite queue_of_broadcast_queue_update.
    by rewrite queue_of_add_all, decide_False. }
  destruct (add_all_only_queues ip items s) as [f Hf].
  unfold exec in *. unfold broadcast_queue_update.
  rewrite broadcast_websocket_run. cbn. rewrite Hf. done.
Qed.

Lemma import_queue_rejects ids clock ip content s :
  ¬ ((Z.of_nat (String.length content) ≤ 10 * 1024 * 1024)%Z ∧
     ∃ text arr, decode_utf8 content = Some text ∧
                 json_loads text = inl (JArr arr)) →
  ∃ detail,
    import_queue send_fault decode_utf8 json_loads ids clock ip content s =
      (Returned (HTTPException 400 detail), s).
Proof.
  intros Hnot. unfold import_queue.
  destruct (10 * 1024 * 1024 <? Z.of_nat (String.length content))%Z eqn:Hsize;
    [by eexists|].
  apply Z.ltb_ge in Hsize.
  destruct (decode_utf8 content) as [text|] eqn:Hdec; [|by eexists].
  unfold validate_import_array, validate_json.
  destruct (json_loads text) as [[|b|n|str|arr|fields]|[lineno colno msg|t]]
    eqn:Hjson; try (by eexists).
  exfalso. apply Hnot. split; [lia|]. by exists text, arr.
Qed.

(** X16. An import either succeeds or answers 400 and changes nothing:
    it never raises, and it succeeds exactly when the file is at most
    10 MB, decodes as UTF-8 and parses to a JSON array. *)
Theorem import_rejects_without_effect (ids : nat → string) (clock : nat → Z)
    (ip content : string) (s : state) :
  let r := import_queue send_fault decode_utf8 json_loads ids clock ip
             content s in
  ((∃ res, r.1 = Returned (Ok res)) ↔
     (Z.of_nat (String.length content) ≤ 10 * 1024 * 1024)%Z ∧
     ∃ text arr, decode_utf8 content = Some text ∧
                 json_loads text = inl (JArr arr)) ∧
  ((¬ ∃ res, r.1 = Returned (Ok res)) →
     ∃ detail, r = (Returned (HTTPException 400 detail), s)).
Proof.
  cbn zeta.
  assert (((Z.of_nat (String.length content) ≤ 10 * 1024 * 1024)%Z ∧
           ∃ text arr, decode_utf8 content = Some text ∧
                       json_loads text = inl (JArr arr)) ∨
          ¬ ((Z.of_nat (String.length content) ≤ 10 * 1024 * 1024)%Z ∧
             ∃ text arr, decode_utf8 content = Some text ∧
                         json_loads text = inl (JArr arr))) as [Hyes|Hno].
  { destruct (decide (Z.of_nat (String.length content)
                      ≤ 10 * 1024 * 1024)%Z) as [Hsize|Hsize];
      [|right; tauto].
    destruct (decode_utf8 content) as [text|] eqn:Hdec.
    - destruct (json_loads text) as [[|b|n|str|arr|fields]|err] eqn:Hjson;
        try (right; intros (_ & text' & arr' & Ht & Ha);
             injection Ht as <-; rewrite Hjson in Ha; discriminate).
      left. split; [done|]. by exists text, arr.
    - right. intros (_ & text' & arr' & Ht & Ha). discriminate. }
  - destruct Hyes as (Hsize & text & arr & Hdec & Hjson).
    rewrite (import_queue_run ids clock ip content text arr s
               Hsize Hdec Hjson). cbn zeta. cbn [fst].
    split.
    + split; [intros _; split; [done|]; by exists text, arr|].
      intros _. by eexists.
    + intros Hn. exfalso. apply Hn. by eexists.
  - destruct (import_queue_rejects ids clock ip content s Hno)
      as [detail Hrun].
    rewrite Hrun. cbn [fst]. split.
    + split; [by intros [res Hres]|]. intros Hyes. by destruct Hno.
    + intros _. by exists detail.
Qed.

(** X17. Export after import gives back the objects of the imported
    array: on an address whose queue is empty, an import of an array
    with at least one object followed by an export returns exactly the
    objects of the array, in order; the export changes nothing. *)
Theorem export_after_import (ids : nat → string) (clock : nat → Z)
    (ip content text : string) (arr : list json) (s : state) :
  (Z.of_nat (String.length content) ≤ 10 * 1024 * 1024)%Z →
  decode_utf8 content = Some text →
  json_loads text = inl (JArr arr) →
  queue_of ip s = [] →
  filter (λ v, is_dict v) arr ≠ [] →
  let s1 := exec (import_queue send_fault decode_utf8 json_loads ids clock ip
                    content) s in
  export_queue ip s1 = (Returned (Ok (filter (λ v, is_dict v) arr)), s1).
Proof.
  intros Hsize Hdec Hjson Hempty Hsome. cbn zeta.
  set (items := imported ids clock (JNum 200) 0 arr).
  assert (exec (import_queue send_fault decode_utf8 json_loads ids clock ip
                  content) s =
          exec (broadcast_queue_update send_fault "queue_updated" (Some ip))
            (exec (add_all ip items) s)) as ->.
  { unfold exec at 1.
    by rewrite (import_queue_run ids clock ip content text arr s
                  Hsize Hdec Hjson). }
  assert (map pi_response items = filter (λ v, is_dict v) arr) as Hresp.
  { transitivity (map fst (map served items)).
    - by rewrite <- list_fmap_compose.
    - unfold items. rewrite imported_responses, <- list_fmap_compose.
      apply list_fmap_id. }
  unfold export_queue, bind, get_queue, gets.
  rewrite queue_of_broadcast_queue_update, queue_of_add_all, decide_True
    by done.
  rewrite Hempty. cbn [app fst snd].
  rewrite <- Hresp in *.
  by destruct items.
Qed.

Lemma batch_add_responses_run ids clock ip responses status s :
  batch_add_responses send_fault ids clock ip responses status s =
    let arr := map JObj responses in
    let items := imported ids clock (JNum status) 0 arr in
    let s' :=
      exec (broadcast_queue_update send_fault "queue_updated" (Some ip))
        (exec (add_all ip items) s) in
    (Returned (Ok (BatchResult (length items)
                     (length (validate_array_elements arr))
                     (validate_array_elements arr)
                     (get_queue_length ip s'))), s').
Proof.
  unfold batch_add_responses.
  unfold bind at 1. rewrite add_valid_run.
  2: { intros j. apply (existsb_validate_at j 0 (map JObj responses)). }
  unfold bind at 1. unfold exec.
  unfold broadcast_queue_update. rewrite broadcast_websocket_run.
  unfold bind at 1, gets at 1. cbn [ret app fst snd].
  by rewrite length_map.
Qed.

(** X18. A batch adds every element: the elements of the request are
    dicts, so none fails, the queue of the address grows by all of them
    in order, each with the status of the request, and the reported
    queue length is the old length plus their number. *)
Theorem batch_adds_every_element (ids : nat → string) (clock : nat → Z)
    (ip : string) (responses : list (list (string * json))) (status : Z)
    (s : state) :
  let r := batch_add_responses send_fault ids clock ip responses status s in
  ∃ items,
    r.1 = Returned (Ok (BatchResult (length responses) 0 []
                          (length (queue_of ip s) + length responses))) ∧
    queue_of ip r.2 = queue_of ip s ++ items ∧
    map served items = map (λ fields, (JObj fields, JNum status)) responses ∧
    (∀ ip', ip' ≠ ip → queue_of ip' r.2 = queue_of ip' s).
Proof.
  cbn zeta.
  assert (filter (λ v, is_dict v) (map JObj responses) = map JObj responses)
    as Hall.
  { induction responses as [|fields rest IH]; [done|].
    cbn [map]. rewrite filter_cons_True by done. by rewrite IH. }
  assert (validate_array_elements (map JObj responses) = []) as Hnone.
  { apply length_zero_iff_nil. unfold validate_array_elements.
    rewrite length_validate_array_elements_from.
    pose proof (length_filter_split (λ v, is_dict v) (map JObj responses)).
    rewrite Hall in *. lia. }
  set (items := imported ids clock (JNum status) 0 (map JObj responses)).
  assert (map served items =
          map (λ fields, (JObj fields, JNum status)) responses) as Hserved.
  { unfold items. rewrite imported_responses, Hall.
    by rewrite <- list_fmap_compose. }
  assert (length items = length responses) as Hlen.
  { rewrite <- (length_map served items), Hserved. by rewrite length_map. }
  exists items.
  rewrite batch_add_responses_run. cbn zeta. fold items.
  rewrite Hnone. cbn [fst snd length]. unfold get_queue_length.
  rewrite !queue_of_broadcast_queue_update, !queue_of_add_all.
  rewrite decide_True by done. rewrite length_app, Hlen.
  split; [done|]. split; [done|]. split; [done|].
  intros ip' Hne.
  by rewrite queue_of_broadcast_queue_update, queue_of_add_all, decide_False.
Qed.

End RoutesProperties.

Lemma import_adds_the_objects_witness :
  let ids := λ idx : nat, "id-" +:+ pretty idx in
  let clock := λ idx : nat, Z.of_nat idx in
  let r := import_queue all_good decode_all loads_one_array ids clock
             "10.0.0.1" "[{}, 1, {}]" two_presets in
  (Z.of_nat (String.length "[{}, 1, {}]") ≤ 10 * 1024 * 1024)%Z ∧
  decode_all "[{}, 1, {}]" = Some "[{}, 1, {}]" ∧
  loads_one_array "[{}, 1, {}]" = inl (JArr [JObj []; JNum 1; JObj []]) ∧
  ∃ (res : import_result) (items : list preset_item),
    r.1 = Returned (Ok res) ∧
    import_total res = 3%nat ∧
    import_added_count res = 2%nat ∧
    import_failed_count res = 1%nat ∧
    queue_of "10.0.0.1" r.2 = queue_of "10.0.0.1" two_presets ++ items ∧
    map served items = [(JObj [], JNum 200); (JObj [], JNum 200)].
Proof.
  cbn zeta.
  assert (Z.of_nat (String.length "[{}, 1, {}]") ≤ 10 * 1024 * 1024)%Z
    as Hsize by (vm_compute; discriminate).
  split; [exact Hsize|]. split; [reflexivity|]. split; [reflexivity|].
  destruct (import_adds_the_objects all_good decode_all loads_one_array
              (λ idx : nat, "id-" +:+ pretty idx) (λ idx : nat, Z.of_nat idx)
              "10.0.0.1" "[{}, 1, {}]" "[{}, 1, {}]"
              [JObj []; JNum 1; JObj []] two_presets Hsize eq_refl eq_refl)
    as (res & items & H1 & H2 & H3 & H4 & _ & _ & H7 & H8 & _).
  exists res, items. repeat split; assumption.
Defined.

Lemma import_rejects_without_effect_witness :
  let ids := λ idx : nat, "id-" +:+ pretty idx in
  let clock := λ idx : nat, Z.of_nat idx in
  let r := import_queue all_good decode_all loads_one_array ids clock
             "10.0.0.1" "{}" two_presets in
  (¬ ∃ res, r.1 = Returned (Ok res)) ∧
  ∃ detail, r = (Returned (HTTPException 400 detail), two_presets).
Proof.
  cbn zeta.
  destruct (import_rejects_without_effect all_good decode_all loads_one_array
              (λ idx : nat, "id-" +:+ pretty idx) (λ idx : nat, Z.of_nat idx)
              "10.0.0.1" "{}" two_presets) as [_ Hreject].
  assert (¬ ∃ res,
            (import_queue all_good decode_all loads_one_array
               (λ idx : nat, "id-" +:+ pretty idx)
               (λ idx : nat, Z.of_nat idx) "10.0.0.1" "{}" two_presets).1 =
            Returned (Ok res)) as Hnot
    by (intros [res Hres]; vm_compute in Hres; discriminate).
  split; [exact Hnot|]. exact (Hreject Hnot).
Defined.

Lemma export_after_import_witness :
  let ids := λ idx : nat, "id-" +:+ pretty idx in
  let clock := λ idx : nat, Z.of_nat idx in
  let s1 := exec (import_queue all_good decode_all loads_one_array ids clock
                    "10.0.0.1" "[{}, 1, {}]") initial_state in
  queue_of "10.0.0.1" initial_state = [] ∧
  filter (λ v, is_dict v) [JObj []; JNum 1; JObj []] ≠ [] ∧
  export_queue "10.0.0.1" s1 =
    (Returned (Ok (filter (λ v, is_dict v) [JObj []; JNum 1; JObj []])), s1).
Proof.
  cbn zeta.
  assert (Z.of_nat (String.length "[{}, 1, {}]") ≤ 10 * 1024 * 1024)%Z
    as Hsize by (vm_compute; discriminate).
  assert (filter (λ v, is_dict v) [JObj []; JNum 1; JObj []] ≠ []) as Hsome
    by (vm_compute; discriminate).
  split; [reflexivity|]. split; [exact Hsome|].
  exact (export_after_import all_good decode_all loads_one_array
           (λ idx : nat, "id-" +:+ pretty idx) (λ idx : nat, Z.of_nat idx)
           "10.0.0.1" "[{}, 1, {}]" "[{}, 1, {}]"
           [JObj []; JNum 1; JObj []] initial_state Hsize eq_refl eq_refl
           eq_refl Hsome).
Defined.

(** ** The routes that add, delete and clear *)

Section QueueRoutes.

Variable send_fault : nat → option send_error.

Lemma set_queues_insert_id ip q s :
  queues s !! ip = Some q → set_queues (<[ip := q]>) s = s.
Proof.
  intros Hq. destruct s as [cl pend cur fut qs byp w lg]. cbn in *.
  unfold set_queues. cbn. by rewrite insert_id.
Qed.

Lemma delete_response_run ip response_id s :
  delete_response ip response_id s =
    match queues s !! ip with
    | None => (Returned false, s)
    | Some q =>
        let kept := filter (λ item, pi_id item ≠ response_id) q in
        (Returned (bool_decide (length kept < length q)%nat),
         set_queues (<[ip := kept]>) s)
    end.
Proof.
  unfold delete_response, bind, gets.
  by destruct (queues s !! ip).
Qed.

Lemma id_in_queue response_id (q : list preset_item) :
  Exists (λ item, ¬ pi_id item ≠ response_id) q ↔ response_id ∈ map pi_id q.
Proof.
  rewrite Exists_exists, list_elem_of_fmap. split.
  - intros (item & Hin & Hid). exists item. split; [|done].
    by destruct (decide (pi_id item = response_id)).
  - intros (item & -> & Hin). exists item. split; [done|]. by intros Hne.
Qed.

Lemma delete_response_route_run ip response_id s :
  delete_response_route send_fault ip response_id s =
    match queues s !! ip with
    | None => (Returned (HTTPException 404 "响应不存在"), s)
    | Some q =>
        let kept := filter (λ item, pi_id item ≠ response_id) q in
        if bool_decide (length kept < length q)%nat then
          (Returned (Ok tt),
           exec (broadcast_queue_update send_fault "queue_updated" (Some ip))
             (set_queues (<[ip := kept]>) s))
        else
          (Returned (HTTPException 404 "响应不存在"),
           set_queues (<[ip := kept]>) s)
    end.
Proof.
  unfold delete_response_route. unfold bind at 1.
  rewrite delete_response_run.
  destruct (queues s !! ip) as [q|]; [|done]. cbn zeta.
  destruct (bool_decide _); [|done].
  unfold bind at 1. unfold exec, broadcast_queue_update.
  by rewrite broadcast_websocket_run.
Qed.

(** X23. The route that deletes one preset response.  When no item of
    the address carries the id, it answers 404, changes nothing and tells
    no console.  When some item carries it, it answers success, the
    queue of the address keeps exactly its other items in their order,
    the other queues are as they were, and every console that can be
    reached receives one [queue_updated] event for the address. *)
Theorem delete_response_route_404_is_silent (ip response_id : string)
    (s : state) :
  let r := delete_response_route send_fault ip response_id s in
  let alive := filter (λ ws, healthy send_fault ws) (websocket_clients s) in
  (response_id ∉ map pi_id (queue_of ip s) →
     r = (Returned (HTTPException 404 "响应不存在"), s)) ∧
  (response_id ∈ map pi_id (queue_of ip s) →
     r.1 = Returned (Ok tt) ∧
     queue_of ip r.2 =
       filter (λ item, pi_id item ≠ response_id) (queue_of ip s) ∧
     (∀ ip', ip' ≠ ip → queue_of ip' r.2 = queue_of ip' s) ∧
     websocket_clients r.2 = alive ∧
     wire r.2 =
       wire s ++
       map (λ ws, (ws, QueueEvent "queue_updated"
                         (if decide (ip = "") then None else Some ip)))
         alive).
Proof.
  cbn zeta. rewrite delete_response_route_run. unfold queue_of at 1 2 3.
  destruct (queues s !! ip) as [q|] eqn:Hq; cbn [default].
  - cbn zeta. case_bool_decide as Hlen.
    + apply filter_drops_some, id_in_queue in Hlen.
      split; [done|]. intros _.
      unfold exec, broadcast_queue_update.
      rewrite broadcast_websocket_run. cbn.
      unfold queue_of. cbn. rewrite lookup_insert_eq. cbn.
      split; [done|]. split; [by rewrite Hq|]. split; [|done].
      intros ip' Hne. by rewrite lookup_insert_ne.
    + split.
      * intros _. rewrite (filter_keeps_all _ q Hlen).
        by rewrite (set_queues_insert_id ip q s Hq).
      * intros Hin. exfalso. apply Hlen.
        by apply filter_drops_some, id_in_queue.
  - split; [done|]. intros Hin. by apply elem_of_nil in Hin.
Qed.

(** X24. A preset response added through the route is served to the
    next request of that address.  The route answers with the given id
    and the new length of the queue; when the queue of the address was
    empty and bypass mode is off, the next request from the address is
    answered at once with the added body and status, the queue is empty
    again, and the coordinator has not been engaged. *)
Theorem added_preset_is_served_next (env : environment)
    (request : http_request) (response_id : string) (created_at : Z)
    (response : list (string * json)) (status : Z) (s : state) :
  bypass_enabled s = false →
  let ip := client_host request in
  let added :=
    add_response_route send_fault response_id created_at ip response status
      s in
  let r := handle_completion send_fault env request added.2 in
  added.1 = Returned (Ok (response_id, S (length (queue_of ip s)))) ∧
  queue_of ip added.2 =
    queue_of ip s ++
    [PresetItem response_id (JObj response) (JNum status) created_at] ∧
  (queue_of ip s = [] →
     r.1 = Returned (Responded (mkJSONResponse (JObj response) (JNum status)))
     ∧ queue_of ip r.2 = [] ∧
     pending_requests r.2 = pending_requests s ∧
     current_request r.2 = current_request s ∧
     request_futures r.2 = request_futures s).
Proof.
  intros Hb. cbn zeta.
  set (item := PresetItem response_id (JObj response) (JNum status)
                 created_at).
  set (ip := client_host request).
  set (s0 := set_queues
               (λ qs, <[ip := default [] (qs !! ip) ++ [item]]> qs) s).
  set (s1 := set_websocket_clients (filter (λ ws, healthy send_fault ws))
               (broadcasted send_fault (websocket_clients s0)
                  (QueueEvent "queue_updated"
                     (if decide (ip = "") then None else Some ip)) s0)).
  assert (queues s1 = <[ip := queue_of ip s ++ [item]]> (queues s)) as Hq1
    by (by destruct s).
  assert (add_response_route send_fault response_id created_at ip response
            status s =
          (Returned (Ok (response_id, S (length (queue_of ip s)))), s1)) as ->.
  { unfold add_response_route. cbn [validate_response_object is_dict].
    unfold bind at 1. unfold add_response. unfold bind at 1.
    unfold modify at 1. unfold ret at 1. unfold bind at 1.
    unfold broadcast_queue_update.
    rewrite broadcast_websocket_run. unfold bind at 1. unfold gets at 1.
    unfold ret. fold item. fold s0. fold s1. do 4 f_equal.
    unfold get_queue_length. unfold queue_of at 1.
    rewrite Hq1, lookup_insert_eq. cbn. rewrite length_app. cbn. lia. }
  cbn [fst snd].
  split; [done|]. split.
  { unfold queue_of at 1. by rewrite Hq1, lookup_insert_eq. }
  intros Hempty.
  assert (bypass_enabled s1 = false) as Hb1 by (by destruct s).
  assert (queues s1 !! client_host request = Some [item]) as Hhead
    by (by rewrite Hq1, lookup_insert_eq, Hempty).
  rewrite (handle_completion_preset_run send_fault env request item [] s1
             Hb1 Hhead).
  cbn zeta. cbn [fst snd].
  split; [done|].
  unfold queue_of. cbn. rewrite lookup_insert_eq. by destruct s.
Qed.


Lemma clear_queue_route_run ip s :
  clear_queue_route send_fault ip s =
    match queues s !! ip with
    | Some _ =>
        (Returned (Ok tt),
         exec (broadcast_queue_update send_fault "queue_updated" (Some ip))
           (set_queues (<[ip := []]>) s))
    | None => (Returned (HTTPException 404 "队列不存在"), s)
    end.
Proof.
  unfold clear_queue_route, clear_queue. unfold bind at 1. unfold bind at 1.
  unfold gets at 1.
  destruct (queues s !! ip) as [q|]; [|done].
  unfold bind at 1. unfold modify at 1. unfold ret at 1.
  unfold bind at 1. unfold exec, broadcast_queue_update.
  by rewrite broadcast_websocket_run.
Qed.

Lemma clear_all_queues_route_run s :
  clear_all_queues_route send_fault s =
    (Returned (Ok tt),
     exec (broadcast_queue_update send_fault "all_queues_updated" None)
       (set_queues (λ _, ∅) s)).
Proof.
  unfold clear_all_queues_route, clear_all_queues.
  unfold bind at 1. unfold modify at 1.
  unfold bind at 1. unfold exec, broadcast_queue_update.
  by rewrite broadcast_websocket_run.
Qed.

(** A request on an address without a preset response, while the
    consoles in the set can be reached: it is suspended, its future is
    pending, and it takes the slot when the slot is free and nobody
    waits, the end of the queue otherwise. *)
Lemma handle_completion_held fault env request s :
  bypass_enabled s = false →
  queue_of (client_host request) s = [] →
  first_fault fault (websocket_clients s) = None →
  let robj := request_obj_of (uuid_req env) (loop_time env) request in
  let r := handle_completion fault env request s in
  r.1 = Returned Suspended ∧
  request_futures r.2 = <[uuid_req env := Pending]> (request_futures s) ∧
  queues r.2 = queues s ∧
  match current_request s with
  | Some cur =>
      current_request r.2 = Some cur ∧
      pending_requests r.2 = pending_requests s ++ [robj]
  | None =>
      current_request r.2 = head (pending_requests s ++ [robj]) ∧
      pending_requests r.2 = tail (pending_requests s ++ [robj])
  end.
Proof.
  intros Hb Hq Hok. cbn zeta.
  assert (queues s !! client_host request = None ∨
          queues s !! client_host request = Some []) as Hq'.
  { unfold queue_of in Hq.
    destruct (queues s !! client_host request) as [q|]; [|by left].
    right. cbn in Hq. by rewrite Hq. }
  rewrite (handle_completion_manual_run fault env request s Hb Hq').
  unfold bind. rewrite submit_run, process_next_request_run.
  cbn [current_request pending_requests add_log set_pending_requests
       set_request_futures websocket_clients].
  destruct (current_request s) as [cur|] eqn:Hcur.
  - by destruct s.
  - destruct (pending_requests s ++ _) as [|next rest] eqn:Hpend.
    + by destruct s.
    + rewrite Hok. by destruct s.
Qed.

(** X25. After the queue of an address has been cleared through its
    route, or all queues through theirs, the next request of the address
    is held for the operator.  The broadcast of the route has removed
    the consoles it could not reach, so, as long as the consoles it did
    reach can still be reached, the announcement of the request cannot
    fail: the handler is suspended with a pending future, and the request
    takes the slot when the slot is free and nobody waits, the end of the
    queue otherwise.  Clearing the queue of an address that has none
    answers 404 and changes nothing. *)
Theorem cleared_address_is_held (fault : nat → option send_error)
    (env : environment) (request : http_request) (s : state) :
  bypass_enabled s = false →
  (∀ ws, send_fault ws = None → fault ws = None) →
  let ip := client_host request in
  let robj := request_obj_of (uuid_req env) (loop_time env) request in
  let held := λ s1 : state,
    let r := handle_completion fault env request s1 in
    r.1 = Returned Suspended ∧
    request_futures r.2 = <[uuid_req env := Pending]> (request_futures s) ∧
    match current_request s with
    | Some cur =>
        current_request r.2 = Some cur ∧
        pending_requests r.2 = pending_requests s ++ [robj]
    | None =>
        current_request r.2 = head (pending_requests s ++ [robj]) ∧
        pending_requests r.2 = tail (pending_requests s ++ [robj])
    end in
  (queues s !! ip = None →
     clear_queue_route send_fault ip s =
       (Returned (HTTPException 404 "队列不存在"), s)) ∧
  (is_Some (queues s !! ip) →
     result (clear_queue_route send_fault ip) s = Returned (Ok tt) ∧
     held (exec (clear_queue_route send_fault ip) s)) ∧
  result (clear_all_queues_route send_fault) s = Returned (Ok tt) ∧
  held (exec (clear_all_queues_route send_fault) s).
Proof.
  intros Hb Hstill. cbn zeta.
  assert (∀ clients,
            first_fault fault
              (filter (λ ws, healthy send_fault ws) clients) = None)
    as Hreach.
  { induction clients as [|ws rest IH]; [done|].
    destruct (healthy send_fault ws) eqn:Hws.
    - rewrite filter_cons_True by (by rewrite Hws). cbn.
      unfold healthy in Hws. destruct (send_fault ws) eqn:Hf; [done|].
      by rewrite (Hstill ws Hf).
    - by rewrite filter_cons_False by (rewrite Hws; cbn; tauto). }
  unfold exec, result.
  rewrite clear_queue_route_run, clear_all_queues_route_run.
  split; [by intros ->|]. split.
  - intros [q Hq]. rewrite Hq. cbn [fst snd]. split; [done|].
    unfold exec, broadcast_queue_update. rewrite broadcast_websocket_run.
    match goal with |- context [handle_completion _ _ _ ?st] =>
      set (s1 := st) end.
    destruct (handle_completion_held fault env request s1)
      as (R1 & R2 & _ & R4).
    + by destruct s.
    + subst s1. unfold queue_of. cbn. by rewrite lookup_insert_eq.
    + subst s1. cbn. apply Hreach.
    + split; [exact R1|]. split; [exact R2|]. exact R4.
  - cbn [fst snd]. split; [done|].
    unfold exec, broadcast_queue_update. rewrite broadcast_websocket_run.
    match goal with |- context [handle_completion _ _ _ ?st] =>
      set (s1 := st) end.
    destruct (handle_completion_held fault env request s1)
      as (R1 & R2 & _ & R4).
    + by destruct s.
    + subst s1. unfold queue_of. cbn. by rewrite lookup_empty.
    + subst s1. cbn. apply Hreach.
    + split; [exact R1|]. split; [exact R2|]. exact R4.
Qed.

End QueueRoutes.

Lemma delete_response_route_404_is_silent_witness :
  let r := delete_response_route all_good "10.0.0.1" "p1" two_presets in
  ("zz" ∉ map pi_id (queue_of "10.0.0.1" two_presets)) ∧
  delete_response_route all_good "10.0.0.1" "zz" two_presets =
    (Returned (HTTPException 404 "响应不存在"), two_presets) ∧
  ("p1" ∈ map pi_id (queue_of "10.0.0.1" two_presets)) ∧
  r.1 = Returned (Ok tt) ∧
  queue_of "10.0.0.1" r.2 = [PresetItem "p2" (JStr "second") (JNum 201) 0].
Proof.
  cbn zeta.
  assert ("zz" ∉ map pi_id (queue_of "10.0.0.1" two_presets)) as Hout
    by (apply (bool_decide_unpack _); by vm_compute).
  assert ("p1" ∈ map pi_id (queue_of "10.0.0.1" two_presets)) as Hin
    by (apply (bool_decide_unpack _); by vm_compute).
  destruct (delete_response_route_404_is_silent all_good "10.0.0.1" "zz"
              two_presets) as [Habsent _].
  destruct (delete_response_route_404_is_silent all_good "10.0.0.1" "p1"
              two_presets) as [_ Hpresent].
  destruct (Hpresent Hin) as (R1 & R2 & _).
  split; [exact Hout|]. split; [exact (Habsent Hout)|].
  split; [exact Hin|]. split; [exact R1|].
  rewrite R2. reflexivity.
Defined.

Lemma added_preset_is_served_next_witness :
  let request := request_from "10.0.0.1" in
  let added :=
    add_response_route console_1_dead "p1" 0 "10.0.0.1"
      [("object", JStr "chat.completion")] 201 two_consoles_two_submitted in
  let r := handle_completion console_1_dead (env_for "R") request added.2 in
  bypass_enabled two_consoles_two_submitted = false ∧
  queue_of "10.0.0.1" two_consoles_two_submitted = [] ∧
  added.1 = Returned (Ok ("p1", 1%nat)) ∧
  r.1 = Returned
          (Responded
             (mkJSONResponse (JObj [("object", JStr "chat.completion")])
                (JNum 201))) ∧
  queue_of "10.0.0.1" r.2 = [] ∧
  current_request r.2 = current_request two_consoles_two_submitted.
Proof.
  cbn zeta.
  destruct (added_preset_is_served_next console_1_dead (env_for "R")
              (request_from "10.0.0.1") "p1" 0
              [("object", JStr "chat.completion")] 201
              two_consoles_two_submitted eq_refl)
    as (A1 & _ & Hserved).
  destruct (Hserved eq_refl) as (R1 & R2 & _ & R4 & _).
  split; [reflexivity|]. split; [reflexivity|].
  split; [exact A1|]. split; [exact R1|]. split; [exact R2|]. exact R4.
Defined.

Lemma cleared_address_is_held_witness :
  let request := request_from "10.0.0.1" in
  let env := env_for "R" in
  let s :=
    set_queues (λ _, queues two_presets)
      (exec (websocket_endpoint all_good 2 [])
         (exec (websocket_endpoint all_good 1 []) initial_state)) in
  let cleared := exec (clear_queue_route console_1_dead "10.0.0.1") s in
  let r := handle_completion console_1_dead env request cleared in
  bypass_enabled s = false ∧
  (∀ ws, console_1_dead ws = None → console_1_dead ws = None) ∧
  is_Some (queues s !! "10.0.0.1") ∧
  result (clear_queue_route console_1_dead "10.0.0.1") s = Returned (Ok tt) ∧
  r.1 = Returned Suspended ∧
  current_request r.2 =
    Some (request_obj_of (uuid_req env) (loop_time env) request) ∧
  clear_queue_route console_1_dead "10.0.0.7" s =
    (Returned (HTTPException 404 "队列不存在"), s).
Proof.
  cbn zeta.
  set (s := set_queues (λ _, queues two_presets)
              (exec (websocket_endpoint all_good 2 [])
                 (exec (websocket_endpoint all_good 1 []) initial_state))).
  assert (is_Some (queues s !! "10.0.0.1")) as Hsome
    by (eexists; reflexivity).
  destruct (cleared_address_is_held console_1_dead console_1_dead
              (env_for "R") (request_from "10.0.0.1") s eq_refl
              (λ ws H, H))
    as (_ & Hclear & _).
  destruct (cleared_address_is_held console_1_dead console_1_dead
              (env_for "R") (request_from "10.0.0.7") s eq_refl
              (λ ws H, H))
    as (Hnone & _).
  destruct (Hclear Hsome) as (C1 & C2 & _ & C4).
  split; [reflexivity|]. split; [intros ws H; exact H|].
  split; [exact Hsome|]. split; [exact C1|]. split; [exact C2|].
  split; [exact (proj1 C4)|]. exact (Hnone eq_refl).
Defined.

(** ** The bypass configuration *)

Section ConfigProperties.

Variable host_matches : string → bool.

Lemma validated_can_be_enabled config :
  _validate_config host_matches config = None →
  target_host config ≠ "" ∧ target_port config ≠ 0%Z.
Proof.
  unfold _validate_config. intros Hv.
  destruct (decide (target_host config = "")); [done|].
  destruct (negb (host_matches (target_host config))); [done|].
  destruct (negb ((1 <=? target_port config)%Z
                  && (target_port config <=? 65535)%Z)) eqn:Hport; [done|].
  split; [done|]. apply negb_false_iff, andb_true_iff in Hport as [H1 _].
  apply Z.leb_le in H1. lia.
Qed.

Lemma call_keeps_valid c config :
  _validate_config host_matches config = None →
  _validate_config host_matches (call host_matches c config) = None.
Proof.
  intros Hv. destruct c as [now kwargs|now|now]; cbn [call].
  - unfold update_config.
    by destruct (_validate_config host_matches (updated now kwargs config))
      eqn:Hnew.
  - unfold enable.
    destruct (validated_can_be_enabled config Hv) as [Hh Hp].
    rewrite !decide_False by done. exact Hv.
  - exact Hv.
Qed.

(** X19. A configuration that passes [_validate_config] still passes it
    after any sequence of [update_config], [enable] and [disable] calls,
    whichever of them raise; on such a configuration [enable] never
    raises.  The checks of [enable] can therefore only fail on a
    configuration that did not come through [update_config]. *)
Theorem config_stays_valid (calls : list config_call) (config : BypassConfig) :
  _validate_config host_matches config = None →
  let final := foldl (λ cfg c, call host_matches c cfg) config calls in
  _validate_config host_matches final = None ∧
  ∀ now, (enable now final).1 = ConfigOk true ∧
         enabled (enable now final).2 = true.
Proof.
  intros Hv. cbn zeta.
  assert (_validate_config host_matches
            (foldl (λ cfg c, call host_matches c cfg) config calls) = None)
    as Hfinal.
  { revert config Hv. induction calls as [|c rest IH]; intros config Hv;
      [done|].
    cbn [foldl]. apply IH. by apply call_keeps_valid. }
  split; [exact Hfinal|]. intros now.
  destruct (validated_can_be_enabled _ Hfinal) as [Hh Hp].
  unfold enable. by rewrite !decide_False.
Qed.

(** X20. [update_config] is all or nothing.  When the candidate fails
    the validation the call raises with the message of the first failing
    check and the manager keeps its configuration; otherwise the manager
    holds the candidate, in which only the given fields and [updated_at]
    differ from before.  Whether bypass mode is on is never changed by an
    update. *)
Theorem update_config_all_or_nothing (now : Z) (kwargs : config_update)
    (config : BypassConfig) :
  let r := update_config host_matches now kwargs config in
  enabled r.2 = enabled config ∧
  match r.1 with
  | ConfigValidationError message =>
      r.2 = config ∧
      _validate_config host_matches (updated now kwargs config)
        = Some message
  | ConfigOk returned =>
      r.2 = returned ∧
      _validate_config host_matches returned = None ∧
      target_host returned
        = default (target_host config) (new_target_host kwargs) ∧
      target_port returned
        = default (target_port config) (new_target_port kwargs) ∧
      target_uri returned
        = default (target_uri config) (new_target_uri kwargs) ∧
      use_https returned
        = default (use_https config) (new_use_https kwargs) ∧
      timeout returned = default (timeout config) (new_timeout kwargs) ∧
      (1 ≤ target_port returned ≤ 65535)%Z ∧
      (1 ≤ timeout returned ≤ 300)%Z
  end.
Proof.
  cbn zeta. unfold update_config.
  destruct (_validate_config host_matches (updated now kwargs config))
    as [message|] eqn:Hv; cbn [fst snd]; [done|].
  split; [done|]. repeat split; try done.
  all: revert Hv; unfold _validate_config;
    destruct (decide (target_host (updated now kwargs config) = ""));
      [done|];
    destruct (negb (host_matches (target_host (updated now kwargs config))));
      [done|];
    destruct (negb ((1 <=? target_port (updated now kwargs config))%Z
                    && (target_port (updated now kwargs config)
                        <=? 65535)%Z)) eqn:Hport; [done|];
    destruct (negb (starts_with_slash
                      (target_uri (updated now kwargs config)))); [done|];
    destruct (negb ((1 <=? timeout (updated now kwargs config))%Z
                    && (timeout (updated now kwargs config) <=? 300)%Z))
      eqn:Htime; [done|];
    intros _;
    apply negb_false_iff, andb_true_iff in Hport as [P1 P2];
    apply negb_false_iff, andb_true_iff in Htime as [T1 T2];
    apply Z.leb_le in P1, P2, T1, T2; lia.
Qed.

End ConfigProperties.

(** ** The headers of a forwarded request *)

Lemma header_get_set_eq key value headers :
  header_get key (header_set key value headers) = Some value.
Proof.
  induction headers as [|[k v] rest IH]; cbn.
  - by rewrite decide_True.
  - destruct (decide (k = key)); cbn; [by rewrite decide_True|].
    by rewrite decide_False.
Qed.

Lemma header_get_set_ne key value key' headers :
  key ≠ key' →
  header_get key' (header_set key value headers) = header_get key' headers.
Proof.
  intros Hne. induction headers as [|[k v] rest IH]; cbn.
  - by rewrite decide_False.
  - destruct (decide (k = key)) as [->|]; cbn.
    + by rewrite !decide_False.
    + destruct (decide (k = key')); [done|]. exact IH.
Qed.

Lemma header_set_keys key value headers k :
  k ∈ map fst (header_set key value headers) ↔
  k = key ∨ k ∈ map fst headers.
Proof.
  induction headers as [|[k0 v0] rest IH]; cbn.
  - rewrite list_elem_of_singleton. split; [by left|].
    intros [?|H]; [done|]. by apply elem_of_nil in H.
  - destruct (decide (k0 = key)) as [->|Hne]; cbn.
    + rewrite !elem_of_cons. tauto.
    + rewrite !elem_of_cons, IH. tauto.
Qed.

Lemma header_set_NoDup key value headers :
  NoDup (map fst headers) → NoDup (map fst (header_set key value headers)).
Proof.
  induction headers as [|[k0 v0] rest IH]; cbn; intros Hnd.
  - apply NoDup_singleton.
  - apply NoDup_cons in Hnd as [Hnot Hnd].
    destruct (decide (k0 = key)) as [->|Hne]; cbn.
    + by apply NoDup_cons.
    + apply NoDup_cons. split; [|by apply IH].
      rewrite header_set_keys. intros [?|?]; done.
Qed.

Lemma header_get_None key headers :
  key ∉ map fst headers → header_get key headers = None.
Proof.
  induction headers as [|[k v] rest IH]; [done|]. cbn.
  intros Hnot. apply not_elem_of_cons in Hnot as [Hne Hnot].
  rewrite decide_False by done. by apply IH.
Qed.

Section HeaderProperties.

Variable lower : string → string.

Lemma copy_end_to_end_keys original : ∀ headers k,
  k ∈ map fst (copy_end_to_end lower original headers) ↔
  k ∈ map fst headers ∨
  (k ∈ map fst original ∧ lower k ∉ HOP_BY_HOP_HEADERS).
Proof.
  induction original as [|[key value] rest IH]; intros headers k.
  - cbn. split; [by left|]. intros [?|[H _]]; [done|].
    by apply elem_of_nil in H.
  - cbn [copy_end_to_end map fst].
    destruct (decide (lower key ∈ HOP_BY_HOP_HEADERS)) as [Hhop|Hhop].
    + rewrite IH, elem_of_cons. split; [tauto|].
      intros [?|[[->|?] Hk]]; tauto.
    + rewrite IH, header_set_keys, elem_of_cons. split.
      * intros [[->|?]|[? ?]]; tauto.
      * intros [?|[[->|?] ?]]; tauto.
Qed.

Lemma copy_end_to_end_NoDup original : ∀ headers,
  NoDup (map fst headers) →
  NoDup (map fst (copy_end_to_end lower original headers)).
Proof.
  induction original as [|[key value] rest IH]; intros headers Hnd; [done|].
  cbn [copy_end_to_end].
  destruct (decide (lower key ∈ HOP_BY_HOP_HEADERS)); [by apply IH|].
  apply IH. by apply header_set_NoDup.
Qed.

Lemma copy_end_to_end_get original : ∀ headers k,
  NoDup (map fst original) →
  header_get k (copy_end_to_end lower original headers) =
    if decide (lower k ∈ HOP_BY_HOP_HEADERS) then header_get k headers
    else match header_get k original with
         | Some v => Some v
         | None => header_get k headers
         end.
Proof.
  induction original as [|[key value] rest IH]; intros headers k Hnd.
  - cbn. by destruct (decide (lower k ∈ HOP_BY_HOP_HEADERS)).
  - cbn [map fst] in Hnd. apply NoDup_cons in Hnd as [Hnot Hnd].
    cbn [copy_end_to_end header_get].
    destruct (decide (lower key ∈ HOP_BY_HOP_HEADERS)) as [Hhop|Hhop].
    + rewrite IH by done.
      destruct (decide (lower k ∈ HOP_BY_HOP_HEADERS)); [done|].
      destruct (decide (key = k)) as [->|]; [done|done].
    + rewrite IH by done.
      destruct (decide (lower k ∈ HOP_BY_HOP_HEADERS)) as [Hk|Hk].
      * apply header_get_set_ne. by intros ->.
      * destruct (decide (key = k)) as [->|Hne].
        -- rewrite (header_get_None k rest Hnot).
           apply header_get_set_eq.
        -- by rewrite header_get_set_ne.
Qed.

Hypothesis lower_Authorization : lower "Authorization" = "authorization".
Hypothesis lower_Content_Type : lower "Content-Type" = "content-type".

Lemma Authorization_not_hop : lower "Authorization" ∉ HOP_BY_HOP_HEADERS.
Proof.
  rewrite lower_Authorization. apply (bool_decide_unpack _). by vm_compute.
Qed.

Lemma Content_Type_not_hop : lower "Content-Type" ∉ HOP_BY_HOP_HEADERS.
Proof.
  rewrite lower_Content_Type. apply (bool_decide_unpack _). by vm_compute.
Qed.

Lemma _prepare_headers_get original config k :
  NoDup (map fst original) →
  k ≠ "Content-Type" →
  header_get k (_prepare_headers lower original config) =
    match api_key config with
    | Some key =>
        if decide (key = "") then
          header_get k (copy_end_to_end lower original [])
        else if decide (k = "Authorization") then Some ("Bearer " +:+ key)
        else header_get k (copy_end_to_end lower original [])
    | None => header_get k (copy_end_to_end lower original [])
    end.
Proof.
  intros Hnd Hct. unfold _prepare_headers.
  set (copied := copy_end_to_end lower original []).
  set (headers := match api_key config with
                  | Some key =>
                      if decide (key = "") then copied
                      else header_set "Authorization" ("Bearer " +:+ key)
                             copied
                  | None => copied
                  end).
  assert (header_get k headers =
          match api_key config with
          | Some key =>
              if decide (key = "") then header_get k copied
              else if decide (k = "Authorization")
                   then Some ("Bearer " +:+ key)
                   else header_get k copied
          | None => header_get k copied
          end) as Hget.
  { unfold headers. destruct (api_key config) as [key|]; [|done].
    destruct (decide (key = "")); [done|].
    destruct (decide (k = "Authorization")) as [->|Hne].
    - apply header_get_set_eq.
    - by apply header_get_set_ne. }
  destruct (decide ("content-type" ∈ map (λ kv, lower kv.1) headers));
    [exact Hget|].
  rewrite header_get_set_ne by done. exact Hget.
Qed.

(** X21. The headers [_prepare_headers] builds for the upstream
    request: no hop-by-hop header is among them, whatever its case; a
    content-type header always is; with an API key configured,
    [Authorization] is the bearer of that key; and every other header of
    the client that is not hop-by-hop is passed on with its value. *)
Theorem prepare_headers_contract (original : list (string * string))
    (config : BypassConfig) :
  NoDup (map fst original) →
  let headers := _prepare_headers lower original config in
  (∀ k, k ∈ map fst headers → lower k ∉ HOP_BY_HOP_HEADERS) ∧
  (∃ k, k ∈ map fst headers ∧ lower k = "content-type") ∧
  (∀ key, api_key config = Some key → key ≠ "" →
          header_get "Authorization" headers = Some ("Bearer " +:+ key)) ∧
  (∀ k v, header_get k original = Some v →
          lower k ∉ HOP_BY_HOP_HEADERS →
          (k = "Authorization" →
           api_key config = None ∨ api_key config = Some "") →
          header_get k headers = Some v) ∧
  NoDup (map fst headers).
Proof.
  intros Hnd. cbn zeta.
  set (copied := copy_end_to_end lower original []).
  set (keyed := match api_key config with
                | Some key =>
                    if decide (key = "") then copied
                    else header_set "Authorization" ("Bearer " +:+ key)
                           copied
                | None => copied
                end).
  assert (∀ k, k ∈ map fst copied → lower k ∉ HOP_BY_HOP_HEADERS) as Hc.
  { intros k Hk. apply copy_end_to_end_keys in Hk as [Hk|[_ Hk]]; [|done].
    by apply elem_of_nil in Hk. }
  assert (∀ k, k ∈ map fst keyed → lower k ∉ HOP_BY_HOP_HEADERS) as Hk.
  { intros k. unfold keyed. destruct (api_key config) as [key|]; [|apply Hc].
    destruct (decide (key = "")); [apply Hc|].
    rewrite header_set_keys. intros [->|?]; [|by apply Hc].
    apply Authorization_not_hop. }
  assert (NoDup (map fst keyed)) as Hndk.
  { unfold keyed.
    assert (NoDup (map fst copied)) as Hndc
      by (apply copy_end_to_end_NoDup; apply NoDup_nil_2).
    destruct (api_key config) as [key|]; [|done].
    destruct (decide (key = "")); [done|]. by apply header_set_NoDup. }
  assert (_prepare_headers lower original config =
          if decide ("content-type" ∈ map (λ kv, lower kv.1) keyed)
          then keyed
          else header_set "Content-Type" "application/json" keyed) as Hrun
    by done.
  split; [|split; [|split; [|split]]].
  - intros k. rewrite Hrun.
    destruct (decide ("content-type" ∈ map (λ kv, lower kv.1) keyed));
      [apply Hk|].
    rewrite header_set_keys. intros [->|?]; [|by apply Hk].
    apply Content_Type_not_hop.
  - rewrite Hrun.
    destruct (decide ("content-type" ∈ map (λ kv, lower kv.1) keyed))
      as [Hin|Hin].
    + apply list_elem_of_fmap in Hin as ([k v] & Hl & Hin).
      exists k. split; [|done].
      apply list_elem_of_fmap. by exists (k, v).
    + exists "Content-Type". split; [|done].
      apply header_set_keys. by left.
  - intros key Hkey Hne.
    rewrite _prepare_headers_get by done. rewrite Hkey.
    by rewrite decide_False, decide_True.
  - intros k v Hget Hhop Hauth.
    assert (header_get k copied = Some v) as Hcopied.
    { unfold copied. rewrite copy_end_to_end_get by done.
      by rewrite decide_False, Hget. }
    assert (header_get k keyed = Some v) as Hkeyed.
    { unfold keyed. destruct (api_key config) as [key|] eqn:Hkey; [|done].
      destruct (decide (key = "")) as [->|Hne]; [done|].
      rewrite header_get_set_ne; [done|]. intros <-.
      destruct (Hauth eq_refl) as [?|?]; simplify_eq. }
    rewrite Hrun.
    destruct (decide ("content-type" ∈ map (λ kv, lower kv.1) keyed))
      as [Hin|Hin]; [done|].
    rewrite header_get_set_ne; [done|]. intros <-.
    apply Hin. apply list_elem_of_fmap. exists ("Content-Type", v).
    split; [done|].
    clear -Hkeyed. induction keyed as [|[k0 v0] rest IH]; [done|].
    cbn in Hkeyed. destruct (decide (k0 = "Content-Type")) as [->|].
    + injection Hkeyed as ->. by left.
    + right. by apply IH.
  - rewrite Hrun.
    destruct (decide ("content-type" ∈ map (λ kv, lower kv.1) keyed));
      [done|]. by apply header_set_NoDup.
Qed.

(** X22. A configured API key does not replace the client's own
    credentials when the client's header is spelt in lower case, as it
    is in the headers of an incoming request: [Authorization] with the
    configured key is added, and [authorization] of the client is passed
    on beside it. *)
Theorem client_authorization_is_passed_on (original : list (string * string))
    (config : BypassConfig) (key credentials : string) :
  lower "authorization" = "authorization" →
  NoDup (map fst original) →
  api_key config = Some key → key ≠ "" →
  header_get "authorization" original = Some credentials →
  let headers := _prepare_headers lower original config in
  header_get "authorization" headers = Some credentials ∧
  header_get "Authorization" headers = Some ("Bearer " +:+ key).
Proof.
  intros Hlow Hnd Hkey Hne Hget. cbn zeta.
  rewrite !_prepare_headers_get by done. rewrite Hkey.
  rewrite !decide_False by done. rewrite decide_True by done.
  split; [|done].
  rewrite copy_end_to_end_get by done.
  rewrite decide_False, Hget; [done|].
  rewrite Hlow. apply (bool_decide_unpack _). by vm_compute.
Qed.

End HeaderProperties.

Lemma config_stays_valid_witness :
  let calls :=
    [CallUpdate 1 (ConfigUpdate None (Some 70000%Z) None None None None);
     CallUpdate 2 (ConfigUpdate (Some "example.com") (Some 8080%Z) None
                     (Some "sk-test") (Some true) None);
     CallEnable 3; CallDisable 4] in
  let final :=
    foldl (λ cfg c, call ascii_host_matches c cfg) default_config calls in
  _validate_config ascii_host_matches default_config = None ∧
  _validate_config ascii_host_matches final = None ∧
  ∀ now, (enable now final).1 = ConfigOk true ∧
         enabled (enable now final).2 = true.
Proof.
  cbn zeta. split; [reflexivity|].
  apply (config_stays_valid ascii_host_matches
           [CallUpdate 1 (ConfigUpdate None (Some 70000%Z) None None None None);
            CallUpdate 2 (ConfigUpdate (Some "example.com") (Some 8080%Z) None
                            (Some "sk-test") (Some true) None);
            CallEnable 3; CallDisable 4] default_config).
  reflexivity.
Defined.

Lemma prepare_headers_contract_witness :
  let original :=
    [("host", "mock.local"); ("user-agent", "curl/8");
     ("Connection", "keep-alive"); ("accept", "*/*")] in
  let config :=
    mkBypassConfig true "api.openai.com" 443 "/v1/chat/completions"
      (Some "sk-test") true 60 0 in
  let headers := _prepare_headers ascii_lower original config in
  NoDup (map fst original) ∧
  headers = [("user-agent", "curl/8"); ("accept", "*/*");
             ("Authorization", "Bearer sk-test");
             ("Content-Type", "application/json")] ∧
  (∀ k, k ∈ map fst headers → ascii_lower k ∉ HOP_BY_HOP_HEADERS) ∧
  (∃ k, k ∈ map fst headers ∧ ascii_lower k = "content-type").
Proof.
  cbn zeta.
  assert (NoDup (map fst [("host", "mock.local"); ("user-agent", "curl/8");
                          ("Connection", "keep-alive"); ("accept", "*/*")]))
    as Hnd by (apply (bool_decide_unpack _); by vm_compute).
  split; [exact Hnd|]. split; [reflexivity|].
  destruct (prepare_headers_contract ascii_lower eq_refl eq_refl
              [("host", "mock.local"); ("user-agent", "curl/8");
               ("Connection", "keep-alive"); ("accept", "*/*")]
              (mkBypassConfig true "api.openai.com" 443
                 "/v1/chat/completions" (Some "sk-test") true 60 0) Hnd)
    as (H1 & H2 & _).
  split; assumption.
Defined.

Lemma client_authorization_is_passed_on_witness :
  let original :=
    [("host", "mock.local"); ("authorization", "Bearer client-token")] in
  let config :=
    mkBypassConfig true "api.openai.com" 443 "/v1/chat/completions"
      (Some "sk-test") true 60 0 in
  let headers := _prepare_headers ascii_lower original config in
  ascii_lower "authorization" = "authorization" ∧
  NoDup (map fst original) ∧
  header_get "authorization" headers = Some "Bearer client-token" ∧
  header_get "Authorization" headers = Some "Bearer sk-test".
Proof.
  cbn zeta.
  assert (NoDup (map fst [("host", "mock.local");
                          ("authorization", "Bearer client-token")]))
    as Hnd by (apply (bool_decide_unpack _); by vm_compute).
  split; [reflexivity|]. split; [exact Hnd|].
  apply (client_authorization_is_passed_on ascii_lower
           [("host", "mock.local"); ("authorization", "Bearer client-token")]
           (mkBypassConfig true "api.openai.com" 443 "/v1/chat/completions"
              (Some "sk-test") true 60 0)
           "sk-test" "Bearer client-token" eq_refl Hnd eq_refl);
    [discriminate | reflexivity].
Defined.
